(** * Mindsprouts: the install workflow of [src/App.js]

    A shallow embedding of the [App] component's two asynchronous
    functions, [requestPermission] and [installGame], of the polling
    callbacks [installGame] registers, and of the guard [renderGame] puts
    on the install button.

    JavaScript runs one task at a time; an [async] function runs until its
    next [await], where it is suspended until the awaited promise settles.
    The embedding therefore cuts every function at its [await]s: each
    piece yields the calls and state writes it performs, in order, and
    how it ends; the environment chooses which suspended piece is resumed
    next and with which value.  React renders between tasks, so the
    button of an item sees the value last written to [downloadingGame]. *)

From Stdlib Require Import String Ascii NArith ZArith List Bool Lia.
From stdpp Require Import base list.
Import ListNotations.

Local Open Scope Z_scope.

(** ** JavaScript strings

    A JavaScript string is a sequence of UTF-16 code units.  The regular
    expression of [installGame] has no [u] flag, so it works on code
    units, one at a time. *)

Definition jsstring := list N.

(** A literal of 8-bit characters, as a JavaScript string. *)
Fixpoint js (s : string) : jsstring :=
  match s with
  | EmptyString => []
  | String a s' => N_of_ascii a :: js s'
  end.

Module Dest.

(** The character class [a-zA-Z0-9]. *)
Definition is_alnum (c : N) : bool :=
  ((97 <=? c) && (c <=? 122) || (65 <=? c) && (c <=? 90)
   || (48 <=? c) && (c <=? 57))%N.

(** The code unit of ["_"]. *)
Definition underscore : N := 95%N.

(** [s.replace(/[^a-zA-Z0-9]/g, "_")]: with the [g] flag every match is
    replaced; a match of the negated class is one code unit; the
    replacement text holds no [$] pattern. *)
Definition replace_non_alnum (s : jsstring) : jsstring :=
  map (fun c => if is_alnum c then c else underscore) s.

(** ECMAScript's WhiteSpace and LineTerminator code units, the ones
    [String.prototype.trim] removes. *)
Definition is_js_whitespace (c : N) : bool :=
  ((9 <=? c) && (c <=? 13) || (c =? 32) || (c =? 160) || (c =? 5760)
   || (8192 <=? c) && (c <=? 8202) || (c =? 8232) || (c =? 8233)
   || (c =? 8239) || (c =? 8287) || (c =? 12288) || (c =? 65279))%N.

Fixpoint trim_start (s : jsstring) : jsstring :=
  match s with
  | [] => []
  | c :: s' => if is_js_whitespace c then trim_start s' else s
  end.

(** [s.trim()] *)
Definition trim (s : jsstring) : jsstring :=
  rev (trim_start (rev (trim_start s))).

(** The package extension of the template literal. *)
Definition extension : jsstring := js ".apk".

(** The last path component of [dest] (lines 52-54):
    [game.title.replace(/[^a-zA-Z0-9]/g, "_").trim()] followed by
    [.apk]. *)
Definition file_name (title : jsstring) : jsstring :=
  trim (replace_non_alnum title) ++ extension.

(** [dest], the whole template literal
    [`${RNFS.DownloadDirectoryPath}/${...}.apk`]. *)
Definition dest (DownloadDirectoryPath title : jsstring) : jsstring :=
  DownloadDirectoryPath ++ js "/" ++ file_name title.

(** What the specification describes instead: the characters outside
    the class are removed, not replaced. *)
Definition strip_non_alnum (s : jsstring) : jsstring :=
  filter (fun c => is_alnum c = true) s.

Definition spec_file_name (title : jsstring) : jsstring :=
  trim (strip_non_alnum title) ++ extension.

(** A code unit the sanitised title can hold. *)
Definition is_word (c : N) : bool := is_alnum c || (c =? underscore)%N.

End Dest.

(** ** The catalog, the platform and the outside world *)

(** A catalog entry of [./games], with the fields [installGame] and
    [renderGame] read.  ([image] and [desc] are only rendered.) *)
Record Game := {
  id : Z;
  title : jsstring;
  apkUrl : jsstring;
  packageName : jsstring;
}.

(** [Platform.OS] and [Platform.Version] of react-native, and
    [RNFS.DownloadDirectoryPath]: fixed for the life of the process. *)
Inductive PlatformOS := android | ios | macos | windows | web.

Record Platform := {
  OS : PlatformOS;
  Version : Z;
  DownloadDirectoryPath : jsstring;
}.

(** [PermissionsAndroid.RESULTS] *)
Inductive PermissionStatus := GRANTED | DENIED | NEVER_ASK_AGAIN.

(** A thrown value, by its message. *)
Definition Error := string.

(** How an awaited promise settles.  A call that throws before it
    returns a promise is, for the [try] around it, the same as a promise
    that rejects. *)
Inductive Settled (A : Type) :=
| Fulfilled (a : A)
| Rejected (e : Error).
Arguments Fulfilled {A} a.
Arguments Rejected {A} e.

(** The result object of [RNFS.downloadFile(...).promise]. *)
Record DownloadResult := { statusCode : Z }.

(** The five [Alert.alert] calls of [installGame]. *)
Inductive AlertKind :=
| PermissionDeniedAlert                (* line 45 *)
| DownloadingAlert (t : jsstring)      (* line 50 *)
| InstalledAlert (t : jsstring)        (* line 82 *)
| DownloadFailedAlert                  (* line 94 *)
| InstallErrorAlert.                   (* line 100 *)

(** The calls [installGame] and its callbacks make to the outside. *)
Inductive Call :=
| PermissionsAndroid_request                         (* line 32 *)
| Alert_alert (a : AlertKind)
| RNFS_downloadFile (fromUrl toFile : jsstring)      (* line 56 *)
| actionViewIntent (path mime authority : jsstring)  (* line 66 *)
| setInterval (delay : Z)                            (* line 77 *)
| setTimeout (delay : Z)                             (* line 92 *)
| isAppInstalled (pkg : jsstring)                    (* line 79 *)
| clearInterval                                      (* lines 81, 92 *)
| startAppByPackageName (pkg : jsstring)             (* line 84 *)
| console_log (msg : string)                         (* line 87 *)
| console_error (e : Error).                         (* line 98 *)

(** ** One invocation of [installGame]

    Where the invocation stands: suspended at one of its three [await]s,
    or returned through one of its four exits. *)
Inductive Exit :=
| Denied                   (* [return] of line 46 *)
| BadStatus (status : Z)   (* the [else] of lines 93-96 *)
| Caught (e : Error)       (* the [catch] of lines 97-101 *)
| Polling.                 (* the end of the [if], after line 92 *)

Inductive Stage :=
| AtPermission             (* line 43 (the request of line 32) *)
| AtDownload               (* line 56 *)
| AtHandoff                (* line 66 *)
| Returned (x : Exit).

(** The frame of one invocation and the callbacks it has registered. *)
Record Run := {
  game : Game;
  stage : Stage;
  checkInterval : bool;  (* the interval of line 77 is set and not cleared *)
  deadline : bool;       (* the timeout of line 92 is set and has not fired *)
  checking : nat;        (* interval callbacks suspended at line 79 *)
  launching : nat;       (* interval callbacks suspended at line 84 *)
  launched : nat;        (* interval callbacks whose launch returned *)
}.

Definition new_run (g : Game) : Run :=
  {| game := g; stage := AtPermission; checkInterval := false;
     deadline := false; checking := 0; launching := 0; launched := 0 |}.

Definition goto (st : Stage) (r : Run) : Run :=
  {| game := game r; stage := st; checkInterval := checkInterval r;
     deadline := deadline r; checking := checking r;
     launching := launching r; launched := launched r |}.

(** ** Pieces of code between two [await]s

    A piece makes calls to the outside and writes the React state, in
    some order, and then either completes or throws. *)
Inductive Action :=
| Do (c : Call)
| SetDownloadingGame (v : option Z).   (* [setDownloadingGame(v)] *)

Definition M (A : Type) : Type := list Action * Settled A.

#[global] Instance M_ret : MRet M := fun A a => ([], Fulfilled a).

#[global] Instance M_bind : MBind M := fun A B k m =>
  match m with
  | (done, Fulfilled a) => let '(more, b) := k a in (done ++ more, b)
  | (done, Rejected e) => (done, Rejected e)
  end.

(** Resuming at an [await]: the value of a fulfilled promise, or the
    rejection, thrown at the [await]. *)
Definition await {A} (p : Settled A) : M A := ([], p).

(** [try { body } catch (e) { handler }] *)
Definition try_catch {A} (body : M A) (handler : Error -> M A) : M A :=
  match body with
  | (done, Fulfilled a) => (done, Fulfilled a)
  | (done, Rejected e) => let '(more, b) := handler e in (done ++ more, b)
  end.

Definition call (c : Call) : M unit := ([Do c], Fulfilled tt).

Definition setDownloadingGame (v : option Z) : M unit :=
  ([SetDownloadingGame v], Fulfilled tt).

(** ** [requestPermission] (lines 29-38) *)

Inductive GateStart :=
| GateReturns (b : bool)   (* lines 30 and 37 *)
| GatePrompts.             (* suspended at the [await] of line 32 *)

Definition requestPermission_start (p : Platform) : GateStart :=
  match OS p with
  | android => if Version p <? 29 then GatePrompts else GateReturns true
  | _ => GateReturns true
  end.

Definition is_granted (st : PermissionStatus) : bool :=
  match st with GRANTED => true | _ => false end.

(** Lines 32-35 from the [await] on.  There is no [try] in
    [requestPermission]: a rejection of the request is the rejection of
    the promise [requestPermission] returned. *)
Definition requestPermission_resume (granted : Settled PermissionStatus)
  : Settled bool :=
  match granted with
  | Fulfilled st => Fulfilled (is_granted st)
  | Rejected e => Rejected e
  end.

(** The whole of [requestPermission], given how the request would settle
    if it is made: the settlement of the promise it returns, and whether
    the system prompt was presented. *)
Definition requestPermission (p : Platform) (answer : Settled PermissionStatus)
  : Settled bool * bool :=
  match requestPermission_start p with
  | GateReturns b => (Fulfilled b, false)
  | GatePrompts => (requestPermission_resume answer, true)
  end.

(** ** [installGame] (lines 41-102) *)

Section Engine.

Variable P : Platform.

(** The constants of lines 62 and 68. *)
Definition authority : jsstring := js "com.mindsproutsapp.provider".
Definition apk_mime : jsstring := js "application/vnd.android.package-archive".

(** The delays of lines 89 and 92, in milliseconds. *)
Definition check_period : Z := 2000.
Definition check_deadline : Z := 20000.

(** The message of line 87 (as UTF-8 bytes). *)
Definition checking_message : string := "⏳ Checking install status...".

(** [dest] of line 52 is a constant of the invocation. *)
Definition dest_of (g : Game) : jsstring :=
  Dest.dest (DownloadDirectoryPath P) (title g).

(** The [catch] block, lines 97-101. *)
Definition installGame_catch (r : Run) (e : Error) : M Run :=
  call (console_error e);;
  setDownloadingGame None;;
  call (Alert_alert InstallErrorAlert);;
  mret (goto (Returned (Caught e)) r).

(** Lines 44-59, up to the [await] of the download. *)
Definition installGame_permitted (r : Run) (ok : bool) : M Run :=
  if negb ok then
    call (Alert_alert PermissionDeniedAlert);;
    mret (goto (Returned Denied) r)
  else
    setDownloadingGame (Some (id (game r)));;
    call (Alert_alert (DownloadingAlert (title (game r))));;
    call (RNFS_downloadFile (apkUrl (game r)) (dest_of (game r)));;
    mret (goto AtDownload r).

(** From the call of line 115 to the first suspension.  When
    [requestPermission] returns without awaiting, the [await] of line 43
    resumes [installGame] before any other task runs. *)
Definition installGame_start (r : Run) : M Run :=
  try_catch
    (match requestPermission_start P with
     | GateReturns ok => installGame_permitted r ok
     | GatePrompts =>
         call PermissionsAndroid_request;;
         mret (goto AtPermission r)
     end)
    (installGame_catch r).

(** Resumed at line 43, the request of line 32 having settled. *)
Definition installGame_after_permission (r : Run)
    (granted : Settled PermissionStatus) : M Run :=
  try_catch
    (ok ← await (requestPermission_resume granted);
     installGame_permitted r ok)
    (installGame_catch r).

(** Resumed at line 56: lines 61-70 or 93-96.  The [require] of line 63
    is resolved when the bundle is built and only binds a name here. *)
Definition installGame_after_download (r : Run)
    (p : Settled DownloadResult) : M Run :=
  try_catch
    (result ← await p;
     if statusCode result =? 200 then
       call (actionViewIntent (dest_of (game r)) apk_mime authority);;
       mret (goto AtHandoff r)
     else
       call (Alert_alert DownloadFailedAlert);;
       setDownloadingGame None;;
       mret (goto (Returned (BadStatus (statusCode result))) r))
    (installGame_catch r).

(** Resumed at line 66: lines 73-92. *)
Definition installGame_after_handoff (r : Run) (p : Settled unit) : M Run :=
  try_catch
    (_ ← await p;
     setDownloadingGame None;;
     call (setInterval check_period);;
     call (setTimeout check_deadline);;
     mret {| game := game r; stage := Returned Polling;
             checkInterval := true; deadline := true;
             checking := checking r; launching := launching r;
             launched := launched r |})
    (installGame_catch r).

(** *** The interval callback (lines 77-89) *)

(** The [catch] of lines 86-88. *)
Definition check_catch (r : Run) (e : Error) : M Run :=
  call (console_log checking_message);;
  mret r.

(** A firing of the interval: line 79 up to its [await]. *)
Definition check_start (r : Run) : M Run :=
  try_catch
    (call (isAppInstalled (packageName (game r)));;
     mret {| game := game r; stage := stage r;
             checkInterval := checkInterval r; deadline := deadline r;
             checking := S (checking r); launching := launching r;
             launched := launched r |})
    (check_catch r).

(** Resumed at line 79: lines 80-84, up to the [await] of the launch.
    [r] is the run with this callback no longer counted as suspended. *)
Definition check_after_query (r : Run) (p : Settled bool) : M Run :=
  try_catch
    (isInstalled ← await p;
     if (isInstalled : bool) then
       call clearInterval;;
       call (Alert_alert (InstalledAlert (title (game r))));;
       call (startAppByPackageName (packageName (game r)));;
       mret {| game := game r; stage := stage r;
               checkInterval := false; deadline := deadline r;
               checking := checking r; launching := S (launching r);
               launched := launched r |}
     else mret r)
    (check_catch r).

(** Resumed at line 84; the callback ends. *)
Definition check_after_launch (r : Run) (p : Settled unit) : M Run :=
  try_catch
    (_ ← await p;
     mret {| game := game r; stage := stage r;
             checkInterval := checkInterval r; deadline := deadline r;
             checking := checking r; launching := launching r;
             launched := S (launched r) |})
    (check_catch r).

(** *** The timeout callback (line 92) *)
Definition deadline_fires (r : Run) : M Run :=
  call clearInterval;;
  mret {| game := game r; stage := stage r;
          checkInterval := false; deadline := false;
          checking := checking r; launching := launching r;
          launched := launched r |}.

(** ** The application state *)

Record AppState := {
  downloadingGame : option Z;   (* the [useState] of line 20 *)
  trace : list (nat * Call);    (* the calls made, oldest first, each with
                                   the index of the run that made it *)
  runs : list Run;              (* every invocation of [installGame] *)
  unhandled : list Error;       (* rejections no [catch] received *)
}.

Definition init : AppState :=
  {| downloadingGame := None; trace := []; runs := []; unhandled := [] |}.

(** The action [a] of run [w] takes effect. *)
Definition perform (w : nat) (s : AppState) (a : Action) : AppState :=
  match a with
  | Do c =>
      {| downloadingGame := downloadingGame s; trace := trace s ++ [(w, c)];
         runs := runs s; unhandled := unhandled s |}
  | SetDownloadingGame v =>
      {| downloadingGame := v; trace := trace s;
         runs := runs s; unhandled := unhandled s |}
  end.

(** Runs a piece of run [w] to its end.  Nobody observes the promise of
    these [async] functions ([onPress] and the timers drop it): if the
    piece throws, the rejection is unhandled. *)
Definition resume (w : nat) (piece : M Run) (s : AppState) : AppState :=
  let s' := fold_left (perform w) (fst piece) s in
  match snd piece with
  | Fulfilled r' =>
      {| downloadingGame := downloadingGame s'; trace := trace s';
         runs := <[w := r']> (runs s'); unhandled := unhandled s' |}
  | Rejected e =>
      {| downloadingGame := downloadingGame s'; trace := trace s';
         runs := runs s'; unhandled := unhandled s' ++ [e] |}
  end.

(** ** The button of [renderGame] (lines 113-117) *)

(** [downloadingGame === item.id] *)
Definition disabled (s : AppState) (item : Game) : bool :=
  match downloadingGame s with
  | Some i => i =? id item
  | None => false
  end.

(** ** Tasks

    What the JavaScript thread is given to run, one task at a time: a
    press of an item's button, the settlement of a promise a run awaits,
    or the firing of one of its timers. *)
Inductive Event :=
| Press (item : Game)
| PermissionSettled (w : nat) (p : Settled PermissionStatus)
| DownloadSettled (w : nat) (p : Settled DownloadResult)
| HandoffSettled (w : nat) (p : Settled unit)
| IntervalFires (w : nat)
| QuerySettled (w : nat) (p : Settled bool)
| LaunchSettled (w : nat) (p : Settled unit)
| DeadlineFires (w : nat).

Definition uncount_check (r : Run) : Run :=
  {| game := game r; stage := stage r; checkInterval := checkInterval r;
     deadline := deadline r; checking := pred (checking r);
     launching := launching r; launched := launched r |}.

Definition uncount_launch (r : Run) : Run :=
  {| game := game r; stage := stage r; checkInterval := checkInterval r;
     deadline := deadline r; checking := checking r;
     launching := pred (launching r); launched := launched r |}.

(** The piece of the existing run [r] that task [e] resumes; [None] when
    [r] has nothing of that kind pending. *)
Definition continuation (e : Event) (r : Run) : option (M Run) :=
  match e with
  | Press _ => None
  | PermissionSettled _ p =>
      match stage r with
      | AtPermission => Some (installGame_after_permission r p)
      | _ => None
      end
  | DownloadSettled _ p =>
      match stage r with
      | AtDownload => Some (installGame_after_download r p)
      | _ => None
      end
  | HandoffSettled _ p =>
      match stage r with
      | AtHandoff => Some (installGame_after_handoff r p)
      | _ => None
      end
  | IntervalFires _ =>
      if checkInterval r then Some (check_start r) else None
  | QuerySettled _ p =>
      match checking r with
      | S _ => Some (check_after_query (uncount_check r) p)
      | O => None
      end
  | LaunchSettled _ p =>
      match launching r with
      | S _ => Some (check_after_launch (uncount_launch r) p)
      | O => None
      end
  | DeadlineFires _ =>
      if deadline r then Some (deadline_fires r) else None
  end.

(** Task [e] on the existing run [w]. *)
Definition on_run (e : Event) (w : nat) (s : AppState) : option AppState :=
  match runs s !! w with
  | Some r =>
      match continuation e r with
      | Some piece => Some (resume w piece s)
      | None => None
      end
  | None => None
  end.

Definition add_run (r : Run) (s : AppState) : AppState :=
  {| downloadingGame := downloadingGame s; trace := trace s;
     runs := runs s ++ [r]; unhandled := unhandled s |}.

(** One task.  A press on a disabled button runs nothing; otherwise it
    is a new invocation of [installGame].  [None]: the task cannot
    occur in this state. *)
Definition step (e : Event) (s : AppState) : option AppState :=
  match e with
  | Press item =>
      if disabled s item then Some s
      else Some (resume (length (runs s)) (installGame_start (new_run item))
                   (add_run (new_run item) s))
  | PermissionSettled w _ | DownloadSettled w _ | HandoffSettled w _
  | IntervalFires w | QuerySettled w _ | LaunchSettled w _
  | DeadlineFires w => on_run e w s
  end.

(** A sequence of tasks. *)
Fixpoint exec (es : list Event) (s : AppState) : option AppState :=
  match es with
  | [] => Some s
  | e :: es' =>
      match step e s with
      | Some s' => exec es' s'
      | None => None
      end
  end.

End Engine.

(** ** The workflow states of the specification

    The code keeps no state value per workflow; the state of a run is
    where its invocation stands and what its callbacks have done.  The
    one [catch] block of [installGame] does not tell a download error from
    a handoff error: both are [InstallError] here. *)

Inductive Reason :=
| PermissionDenied
| DownloadFailed (httpStatus : Z)
| InstallError (cause : Error).

Inductive WorkflowState :=
| Idle
| AwaitingPermission
| Downloading
| HandingOffToInstaller
| PollingForInstall
| Installed
| Launched
| Failed (reason : Reason)
| TimedOut.

Definition is_alert_installed (c : Call) : bool :=
  match c with Alert_alert (InstalledAlert _) => true | _ => false end.

Definition is_alert (c : Call) : bool :=
  match c with Alert_alert _ => true | _ => false end.

Definition is_clearInterval (c : Call) : bool :=
  match c with clearInterval => true | _ => false end.

Definition is_isAppInstalled (c : Call) : bool :=
  match c with isAppInstalled _ => true | _ => false end.

Definition is_downloadFile (c : Call) : bool :=
  match c with RNFS_downloadFile _ _ => true | _ => false end.

Definition is_actionViewIntent (c : Call) : bool :=
  match c with actionViewIntent _ _ _ => true | _ => false end.

Definition is_startApp (c : Call) : bool :=
  match c with startAppByPackageName _ => true | _ => false end.

Definition is_alert_denied (c : Call) : bool :=
  match c with Alert_alert PermissionDeniedAlert => true | _ => false end.

(** The two timers of lines 77-92, with their delays. *)
Definition is_setInterval (c : Call) : bool :=
  match c with setInterval d => d =? check_period | _ => false end.

Definition is_setTimeout (c : Call) : bool :=
  match c with setTimeout d => d =? check_deadline | _ => false end.

(** The calls run [w] has made, oldest first. *)
Fixpoint own (w : nat) (tr : list (nat * Call)) : list Call :=
  match tr with
  | [] => []
  | (w', c) :: tr' => if (w' =? w)%nat then c :: own w tr' else own w tr'
  end.

Fixpoint count (what : Call -> bool) (h : list Call) : nat :=
  match h with
  | [] => O
  | c :: h' => ((if what c then 1 else 0) + count what h')%nat
  end.

(** The number of calls of one kind that run [w] has made. *)
Definition calls (what : Call -> bool) (w : nat) (tr : list (nat * Call)) : nat :=
  count what (own w tr).

Definition workflow_state (s : AppState) (w : nat) : WorkflowState :=
  match runs s !! w with
  | None => Idle
  | Some r =>
      match stage r with
      | AtPermission => AwaitingPermission
      | AtDownload => Downloading
      | AtHandoff => HandingOffToInstaller
      | Returned Denied => Failed PermissionDenied
      | Returned (BadStatus c) => Failed (DownloadFailed c)
      | Returned (Caught e) => Failed (InstallError e)
      | Returned Polling =>
          match launched r, calls is_alert_installed w (trace s) with
          | S _, _ => Launched
          | O, S _ => Installed
          | O, O => if deadline r then PollingForInstall else TimedOut
          end
      end
  end.

(** Terminal states, as the specification lists them. *)
Definition terminal (st : WorkflowState) : bool :=
  match st with
  | Installed | Launched | Failed _ | TimedOut => true
  | _ => false
  end.

(** A workflow that has started and has not reached a terminal state. *)
Definition in_flight (st : WorkflowState) : bool :=
  match st with
  | Idle => false
  | _ => negb (terminal st)
  end.

(** Run [w] exists, is a run of item [i], and is in flight. *)
Definition in_flight_of (s : AppState) (i : Z) (w : nat) : bool :=
  match runs s !! w with
  | Some r => (id (game r) =? i) && in_flight (workflow_state s w)
  | None => false
  end.

(** The indices of the runs of item [i] that are in flight. *)
Definition in_flight_runs (s : AppState) (i : Z) : list nat :=
  filter (fun w => in_flight_of s i w = true) (seq 0 (length (runs s))).

(** The timers of run [w] that are alive. *)
Definition live_timers (r : Run) : nat :=
  ((if checkInterval r then 1 else 0) + (if deadline r then 1 else 0))%nat.

(** The calls among the actions of a piece of run [w], tagged, and the
    value of [downloadingGame] after its writes. *)
Fixpoint tagged (w : nat) (acts : list Action) : list (nat * Call) :=
  match acts with
  | [] => []
  | Do c :: acts' => (w, c) :: tagged w acts'
  | SetDownloadingGame _ :: acts' => tagged w acts'
  end.

Fixpoint written (acts : list Action) (d : option Z) : option Z :=
  match acts with
  | [] => d
  | Do _ :: acts' => written acts' d
  | SetDownloadingGame v :: acts' => written acts' v
  end.

Fixpoint calls_in (acts : list Action) : list Call :=
  match acts with
  | [] => []
  | Do c :: acts' => c :: calls_in acts'
  | SetDownloadingGame _ :: acts' => calls_in acts'
  end.

(** The run a task resumes; a press resumes none. *)
Definition subject (e : Event) : option nat :=
  match e with
  | Press _ => None
  | PermissionSettled w _ | DownloadSettled w _ | HandoffSettled w _
  | IntervalFires w | QuerySettled w _ | LaunchSettled w _
  | DeadlineFires w => Some w
  end.

(** The state after run [w] has performed [acts], the runs being [rs]. *)
Definition after (w : nat) (acts : list Action) (rs : list Run) (s : AppState)
  : AppState :=
  {| downloadingGame := written acts (downloadingGame s);
     trace := trace s ++ tagged w acts;
     runs := rs; unhandled := unhandled s |}.

(** ** The transitions of one run, as a table

    What each task does to the run it resumes: the actions performed, in
    order, and the run afterwards.  [started_sound], [local_sound] and
    [local_complete] below show that this table and the code above
    agree. *)

Section Table.

Variable P : Platform.

(** Lines 49-59. *)
Definition start_download (r : Run) : list Action :=
  [SetDownloadingGame (Some (id (game r)));
   Do (Alert_alert (DownloadingAlert (title (game r))));
   Do (RNFS_downloadFile (apkUrl (game r)) (dest_of P (game r)))].

(** Lines 98-100. *)
Definition report_error (e : Error) : list Action :=
  [Do (console_error e); SetDownloadingGame None;
   Do (Alert_alert InstallErrorAlert)].

(** Lines 81-84. *)
Definition report_installed (r : Run) : list Action :=
  [Do clearInterval;
   Do (Alert_alert (InstalledAlert (title (game r))));
   Do (startAppByPackageName (packageName (game r)))].

Definition with_timers (interval timeout : bool) (r : Run) : Run :=
  {| game := game r; stage := stage r; checkInterval := interval;
     deadline := timeout; checking := checking r;
     launching := launching r; launched := launched r |}.

Definition with_callbacks (c l d : nat) (r : Run) : Run :=
  {| game := game r; stage := stage r; checkInterval := checkInterval r;
     deadline := deadline r; checking := c; launching := l; launched := d |}.

(** A press on an enabled button: the actions of the new run up to its
    first suspension, and the new run then. *)
Inductive Started : Game -> list Action -> Run -> Prop :=
| S_prompt item :
    requestPermission_start P = GatePrompts ->
    Started item [Do PermissionsAndroid_request]
            (goto AtPermission (new_run item))
| S_direct item :
    requestPermission_start P = GateReturns true ->
    Started item (start_download (new_run item))
            (goto AtDownload (new_run item)).

(** A task that resumes an existing run. *)
Inductive Local : Event -> Run -> list Action -> Run -> Prop :=
| L_granted w r :
    stage r = AtPermission ->
    Local (PermissionSettled w (Fulfilled GRANTED)) r
          (start_download r) (goto AtDownload r)
| L_denied w r st :
    stage r = AtPermission -> st <> GRANTED ->
    Local (PermissionSettled w (Fulfilled st)) r
          [Do (Alert_alert PermissionDeniedAlert)] (goto (Returned Denied) r)
| L_permission_error w r e :
    stage r = AtPermission ->
    Local (PermissionSettled w (Rejected e)) r
          (report_error e) (goto (Returned (Caught e)) r)
| L_downloaded w r res :
    stage r = AtDownload -> statusCode res = 200 ->
    Local (DownloadSettled w (Fulfilled res)) r
          [Do (actionViewIntent (dest_of P (game r)) apk_mime authority)]
          (goto AtHandoff r)
| L_bad_status w r res :
    stage r = AtDownload -> statusCode res <> 200 ->
    Local (DownloadSettled w (Fulfilled res)) r
          [Do (Alert_alert DownloadFailedAlert); SetDownloadingGame None]
          (goto (Returned (BadStatus (statusCode res))) r)
| L_download_error w r e :
    stage r = AtDownload ->
    Local (DownloadSettled w (Rejected e)) r
          (report_error e) (goto (Returned (Caught e)) r)
| L_handed_off w r u :
    stage r = AtHandoff ->
    Local (HandoffSettled w (Fulfilled u)) r
          [SetDownloadingGame None; Do (setInterval check_period);
           Do (setTimeout check_deadline)]
          (with_timers true true (goto (Returned Polling) r))
| L_handoff_error w r e :
    stage r = AtHandoff ->
    Local (HandoffSettled w (Rejected e)) r
          (report_error e) (goto (Returned (Caught e)) r)
| L_check w r :
    checkInterval r = true ->
    Local (IntervalFires w) r
          [Do (isAppInstalled (packageName (game r)))]
          (with_callbacks (S (checking r)) (launching r) (launched r) r)
| L_installed w r n :
    checking r = S n ->
    Local (QuerySettled w (Fulfilled true)) r
          (report_installed r)
          (with_timers false (deadline r)
             (with_callbacks n (S (launching r)) (launched r) r))
| L_not_installed w r n :
    checking r = S n ->
    Local (QuerySettled w (Fulfilled false)) r
          [] (with_callbacks n (launching r) (launched r) r)
| L_query_error w r n e :
    checking r = S n ->
    Local (QuerySettled w (Rejected e)) r
          [Do (console_log checking_message)]
          (with_callbacks n (launching r) (launched r) r)
| L_launched w r n u :
    launching r = S n ->
    Local (LaunchSettled w (Fulfilled u)) r
          [] (with_callbacks (checking r) n (S (launched r)) r)
| L_launch_error w r n e :
    launching r = S n ->
    Local (LaunchSettled w (Rejected e)) r
          [Do (console_log checking_message)]
          (with_callbacks (checking r) n (launched r) r)
| L_deadline w r :
    deadline r = true ->
    Local (DeadlineFires w) r [Do clearInterval] (with_timers false false r).

End Table.

(** States the application can be in: those some sequence of tasks
    leads to. *)
Definition reachable (P : Platform) (s : AppState) : Prop :=
  exists es, exec P es init = Some s.

(** ** Invariants *)

(** A run with no timer and no callback of its own. *)
Definition idle (r : Run) : Prop :=
  checkInterval r = false /\ deadline r = false
  /\ checking r = O /\ launching r = O /\ launched r = O.

(** What the calls a run has made so far can be, by where it stands. *)
Definition history_ok (h : list Call) (r : Run) : Prop :=
  match stage r with
  | AtPermission =>
      idle r /\ count is_alert h = O /\ count is_downloadFile h = O
      /\ count is_actionViewIntent h = O /\ count is_clearInterval h = O
      /\ count is_alert_installed h = O
      /\ count is_setInterval h = O /\ count is_setTimeout h = O
  | AtDownload =>
      idle r /\ count is_actionViewIntent h = O
      /\ count is_clearInterval h = O /\ count is_alert_installed h = O
      /\ count is_setInterval h = O /\ count is_setTimeout h = O
  | AtHandoff =>
      idle r /\ count is_clearInterval h = O /\ count is_alert_installed h = O
      /\ count is_setInterval h = O /\ count is_setTimeout h = O
  | Returned Polling =>
      count is_clearInterval h
      = (count is_alert_installed h + if deadline r then 0 else 1)%nat
      /\ (launching r + launched r <= count is_alert_installed h)%nat
      /\ count is_setInterval h = 1%nat /\ count is_setTimeout h = 1%nat
  | Returned _ => idle r
  end.

(** In every prefix of a run's calls, there are at least as many
    "installed" alerts as launch calls: each launch has an alert of its
    own before it. *)
Definition launches_follow_reports (h : list Call) : Prop :=
  forall k, (count is_startApp (firstn k h)
             <= count is_alert_installed (firstn k h))%nat.

(** The stages in which [downloadingGame] is meant to name the item of
    the run: from line 49 to line 73 (or 95, or 99). *)
Definition holds_busy (st : Stage) : bool :=
  match st with
  | AtDownload | AtHandoff => true
  | _ => false
  end.

(** The busy slot names only an item that has a run between lines 49 and
    73. *)
Definition busy_has_run (s : AppState) : Prop :=
  forall i, downloadingGame s = Some i ->
    exists w r, runs s !! w = Some r /\ id (game r) = i
                /\ holds_busy (stage r) = true.

(** ** Sample data *)

Module Sample.

Definition android30 : Platform :=
  {| OS := android; Version := 30; DownloadDirectoryPath := js "/downloads" |}.

Definition android28 : Platform :=
  {| OS := android; Version := 28; DownloadDirectoryPath := js "/downloads" |}.

Definition space_jump : Game :=
  {| id := 1; title := js "Space Jump!";
     apkUrl := js "https://example.org/spacejump.apk";
     packageName := js "org.example.spacejump" |}.

Definition puzzle : Game :=
  {| id := 2; title := js "Puzzle";
     apkUrl := js "https://example.org/puzzle.apk";
     packageName := js "org.example.puzzle" |}.

Definition ok200 : Settled DownloadResult := Fulfilled {| statusCode := 200 |}.
Definition notfound : Settled DownloadResult := Fulfilled {| statusCode := 404 |}.

(** A run of [space_jump] on Android 11 up to the start of polling. *)
Definition to_polling : list Event :=
  [Press space_jump; DownloadSettled 0 ok200; HandoffSettled 0 (Fulfilled tt)].

End Sample.

(** The state a sequence of tasks leads to from [init] ([init] itself if
    the sequence cannot occur). *)
Definition state_after (P : Platform) (es : list Event) : AppState :=
  match exec P es init with
  | Some s => s
  | None => init
  end.

(** The task is not the rejection of the handoff of run [w]. *)
Definition not_handoff_rejection (w : nat) (e : Event) : Prop :=
  forall err, e <> HandoffSettled w (Rejected err).

(** The task is not an install query of run [w] answering [true]. *)
Definition not_installed_answer (w : nat) (e : Event) : Prop :=
  e <> QuerySettled w (Fulfilled true).

(** Run [w] is past the download: at the handoff or beyond it, not
    failed. *)
Definition past_download (w : nat) (s : AppState) : Prop :=
  exists r, runs s !! w = Some r
            /\ (stage r = AtHandoff \/ stage r = Returned Polling).

(** Run [w] is polling after its deadline: no timer is left. *)
Definition timers_gone (w : nat) (k : nat) (s : AppState) : Prop :=
  calls is_isAppInstalled w (trace s) = k
  /\ exists r, runs s !! w = Some r /\ stage r = Returned Polling
               /\ checkInterval r = false /\ deadline r = false.

(** Run [w] has timed out and nothing has been reported since. *)
Definition timed_out (w : nat) (alerts : nat) (s : AppState) : Prop :=
  calls is_alert w (trace s) = alerts
  /\ calls is_alert_installed w (trace s) = O
  /\ calls is_clearInterval w (trace s) = 1%nat
  /\ exists r, runs s !! w = Some r /\ stage r = Returned Polling
               /\ deadline r = false
               /\ launching r = O /\ launched r = O.

Module SampleStates.
Import Sample.

(** [space_jump] is being downloaded, on Android 11. *)
Definition downloading : AppState := state_after android30 [Press space_jump].

(** The permission prompt for [space_jump] is open, on Android 9. *)
Definition prompting : AppState := state_after android28 [Press space_jump].

(** Polling, one install query in flight. *)
Definition checking_once : list Event := to_polling ++ [IntervalFires 0].

(** Polling, one query answered [false]. *)
Definition answered_no : list Event :=
  to_polling ++ [IntervalFires 0; QuerySettled 0 (Fulfilled false)].

(** Polling, one query answered [true]: the launch is in flight. *)
Definition answered_yes : list Event :=
  to_polling ++ [IntervalFires 0; QuerySettled 0 (Fulfilled true)].

End SampleStates.

From Stdlib Require DecimalString DecimalZ.

(** ** The calls of a run, in order *)

(** The call before the download: the prompt, where the platform has
    one. *)
Definition gate_calls (P : Platform) : list Call :=
  match requestPermission_start P with
  | GatePrompts => [PermissionsAndroid_request]
  | GateReturns _ => []
  end.

(** Lines 50-59. *)
Definition download_calls (P : Platform) (g : Game) : list Call :=
  [Alert_alert (DownloadingAlert (title g));
   RNFS_downloadFile (apkUrl g) (dest_of P g)].

(** Lines 66-70. *)
Definition handoff_call (P : Platform) (g : Game) : Call :=
  actionViewIntent (dest_of P g) apk_mime authority.

(** Lines 77 and 92. *)
Definition timer_calls : list Call :=
  [setInterval check_period; setTimeout check_deadline].

(** Lines 98 and 100. *)
Definition error_calls (e : Error) : list Call :=
  [console_error e; Alert_alert InstallErrorAlert].

(** A call of the interval and timeout callbacks of a run of [g]. *)
Definition is_poll_call (g : Game) (c : Call) : Prop :=
  c = isAppInstalled (packageName g) \/ c = clearInterval
  \/ c = Alert_alert (InstalledAlert (title g))
  \/ c = startAppByPackageName (packageName g)
  \/ c = console_log checking_message.

(** The calls a run can have made, by where it stands. *)
Definition history_shape (P : Platform) (h : list Call) (r : Run) : Prop :=
  let g := game r in
  match stage r with
  | AtPermission =>
      requestPermission_start P = GatePrompts
      /\ h = [PermissionsAndroid_request]
  | AtDownload => h = gate_calls P ++ download_calls P g
  | AtHandoff => h = gate_calls P ++ download_calls P g ++ [handoff_call P g]
  | Returned Denied =>
      requestPermission_start P = GatePrompts
      /\ h = [PermissionsAndroid_request; Alert_alert PermissionDeniedAlert]
  | Returned (BadStatus c) =>
      c <> 200
      /\ h = gate_calls P ++ download_calls P g
             ++ [Alert_alert DownloadFailedAlert]
  | Returned (Caught e) =>
      (requestPermission_start P = GatePrompts
       /\ h = PermissionsAndroid_request :: error_calls e)
      \/ h = gate_calls P ++ download_calls P g ++ error_calls e
      \/ h = gate_calls P ++ download_calls P g ++ [handoff_call P g]
               ++ error_calls e
  | Returned Polling =>
      exists poll,
        h = gate_calls P ++ download_calls P g ++ [handoff_call P g]
              ++ timer_calls ++ poll
        /\ Forall (is_poll_call g) poll
  end.

Definition is_prompt (c : Call) : bool :=
  match c with PermissionsAndroid_request => true | _ => false end.

Definition is_failure_alert (c : Call) : bool :=
  match c with
  | Alert_alert (PermissionDeniedAlert | DownloadFailedAlert
                 | InstallErrorAlert) => true
  | _ => false
  end.

Definition is_alert_downloading (c : Call) : bool :=
  match c with Alert_alert (DownloadingAlert _) => true | _ => false end.

Definition is_failed (st : WorkflowState) : bool :=
  match st with Failed _ => true | _ => false end.

(** The calls a run of [g] can make, with their arguments. *)
Inductive run_call (P : Platform) (g : Game) : Call -> Prop :=
| rc_prompt : run_call P g PermissionsAndroid_request
| rc_denied : run_call P g (Alert_alert PermissionDeniedAlert)
| rc_downloading : run_call P g (Alert_alert (DownloadingAlert (title g)))
| rc_download : run_call P g (RNFS_downloadFile (apkUrl g) (dest_of P g))
| rc_download_failed : run_call P g (Alert_alert DownloadFailedAlert)
| rc_handoff : run_call P g (handoff_call P g)
| rc_error_log e : run_call P g (console_error e)
| rc_error : run_call P g (Alert_alert InstallErrorAlert)
| rc_interval : run_call P g (setInterval check_period)
| rc_timeout : run_call P g (setTimeout check_deadline)
| rc_query : run_call P g (isAppInstalled (packageName g))
| rc_clear : run_call P g clearInterval
| rc_installed : run_call P g (Alert_alert (InstalledAlert (title g)))
| rc_launch : run_call P g (startAppByPackageName (packageName g))
| rc_log : run_call P g (console_log checking_message).

(** The rejection of a call [installGame] awaits: the run, the [await]
    it is suspended at, and the error. *)
Definition awaited_rejection (e : Event) : option (nat * Stage * Error) :=
  match e with
  | PermissionSettled w (Rejected err) => Some (w, AtPermission, err)
  | DownloadSettled w (Rejected err) => Some (w, AtDownload, err)
  | HandoffSettled w (Rejected err) => Some (w, AtHandoff, err)
  | _ => None
  end.

(** How far an invocation has come. *)
Definition stage_rank (st : Stage) : nat :=
  match st with
  | AtPermission => 0
  | AtDownload => 1
  | AtHandoff => 2
  | Returned _ => 3
  end.

(** ** Counting tasks *)

Definition answers_true (e : Event) : nat :=
  match e with QuerySettled _ (Fulfilled true) => 1 | _ => 0 end.

Definition fires_interval (e : Event) : nat :=
  match e with IntervalFires _ => 1 | _ => 0 end.

Definition fires_deadline (e : Event) : nat :=
  match e with DeadlineFires _ => 1 | _ => 0 end.

(** The weight [f] of task [e], if it is a task of run [w]. *)
Definition weight (w : nat) (f : Event -> nat) (e : Event) : nat :=
  match subject e with
  | Some w' => if (w' =? w)%nat then f e else O
  | None => O
  end.

(** The tasks of run [w] in [es], weighted by [f]. *)
Fixpoint tally (w : nat) (f : Event -> nat) (es : list Event) : nat :=
  match es with
  | [] => O
  | e :: es' => (weight w f e + tally w f es')%nat
  end.

(** Run [w] has reported the installation and its interval is cleared. *)
Definition reported (w : nat) (k : nat) (s : AppState) : Prop :=
  calls is_isAppInstalled w (trace s) = k
  /\ (1 <= calls is_alert_installed w (trace s))%nat
  /\ exists r, runs s !! w = Some r /\ stage r = Returned Polling
               /\ checkInterval r = false.

(** A launch of run [w] has returned. *)
Definition has_launched (w : nat) (s : AppState) : Prop :=
  exists r, runs s !! w = Some r /\ stage r = Returned Polling
            /\ (1 <= launched r)%nat.

(** In a polling run the interval is set exactly while the deadline is
    pending and no "installed" alert has been raised. *)
Definition interval_ok (h : list Call) (r : Run) : Prop :=
  stage r = Returned Polling ->
  checkInterval r = deadline r && (count is_alert_installed h =? 0)%nat.

(** A task that is neither a positive answer nor the deadline of run
    [w]. *)
Definition keeps_polling (w : nat) (e : Event) : Prop :=
  e <> QuerySettled w (Fulfilled true) /\ e <> DeadlineFires w.

(** Run [w] is polling: both timers set, nothing reported. *)
Definition still_polling (w : nat) (alerts : nat) (s : AppState) : Prop :=
  calls is_alert w (trace s) = alerts
  /\ calls is_alert_installed w (trace s) = O
  /\ exists r, runs s !! w = Some r /\ stage r = Returned Polling
               /\ checkInterval r = true /\ deadline r = true
               /\ launching r = O /\ launched r = O.

(** ** Titles that share a destination *)

(** Two code units at the same place of two titles that the replacement
    of line 53 does not tell apart: the same code unit, or two code units
    outside [A-Za-z0-9]. *)
Definition same_slot (a b : N) : Prop :=
  a = b \/ (Dest.is_alnum a = false /\ Dest.is_alnum b = false).

(** The code units of ["/"], ["\"] and ["."]. *)
Definition slash : N := 47%N.
Definition backslash : N := 92%N.
Definition dot : N := 46%N.

Fixpoint occurrences (c : N) (s : jsstring) : nat :=
  match s with
  | [] => O
  | c' :: s' => ((if (c' =? c)%N then 1 else 0) + occurrences c s')%nat
  end.

(** ** The component [App]: splash screen and grid

    Lines 19-26 and 104-157.  The styles and the layout are left out. *)

(** The two labels of line 125 (as UTF-8 bytes). *)
Definition installing_label : string := "⏳ Installing...".
Definition install_label : string := "⬇ Install".

(** What [renderGame] (lines 105-130) renders for one item: its title
    (line 110) and its button (lines 113-128). *)
Record Cell := {
  cell_title : jsstring;
  cell_item : Game;       (* what [onPress] passes to [installGame] *)
  cell_disabled : bool;   (* line 116 *)
  cell_label : string;    (* line 125 *)
}.

Definition renderGame (s : AppState) (item : Game) : Cell :=
  {| cell_title := title item;
     cell_item := item;
     cell_disabled := disabled s item;
     cell_label := if disabled s item then installing_label
                   else install_label |}.

(** [keyExtractor] (line 150): [item.id.toString()], the decimal digits
    of an integer identifier, with a minus sign if it is negative.
    JavaScript prints an integer in full like this when it is a safe
    integer (at most 2^53 - 1 in absolute value). *)
Definition keyExtractor (item : Game) : string :=
  DecimalString.NilZero.string_of_int (Z.to_int (id item)).

Definition safe_integer (z : Z) : Prop := Z.abs z <= 9007199254740991.

(** What the component returns: the splash screen (lines 133-141) or the
    grid (lines 144-156), one cell per catalog item, in order. *)
Inductive Screen :=
| SplashScreen
| MainScreen (cells : list Cell).

(** The component's state: [showSplash] (line 21), whether the timer of
    line 24 is pending, and the state of the install workflows. *)
Record AppUI := {
  showSplash : bool;
  splashTimer : bool;
  core : AppState;
}.

(** After the first render and its effect (lines 23-26): the splash is
    shown and its timer is set. *)
Definition mounted : AppUI :=
  {| showSplash := true; splashTimer := true; core := init |}.

Definition with_core (ui : AppUI) (s : AppState) : AppUI :=
  {| showSplash := showSplash ui; splashTimer := splashTimer ui; core := s |}.

(** What can happen to the component: a tap on the button of the [k]-th
    cell, the firing of the splash timer, or a task of a run (a
    settlement or one of its timers). *)
Inductive UIEvent :=
| Tap (k : nat)
| SplashTimerFires
| Background (e : Event).

Section App.

Variable P : Platform.

(** [games], imported from [./games] (line 17). *)
Variable games : list Game.

Definition render (ui : AppUI) : Screen :=
  if showSplash ui then SplashScreen
  else MainScreen (map (renderGame (core ui)) games).

(** A tap reaches [onPress] only if the grid is shown, the cell exists
    and its button is not disabled; it then calls [installGame] with the
    cell's item. *)
Definition ui_step (ev : UIEvent) (ui : AppUI) : option AppUI :=
  match ev with
  | Tap k =>
      match render ui with
      | SplashScreen => None
      | MainScreen cells =>
          match cells !! k with
          | Some c =>
              if cell_disabled c then Some ui
              else option_map (with_core ui)
                     (step P (Press (cell_item c)) (core ui))
          | None => None
          end
      end
  | SplashTimerFires =>
      if splashTimer ui
      then Some {| showSplash := false; splashTimer := false;
                   core := core ui |}
      else None
  | Background e =>
      match e with
      | Press _ => None
      | _ => option_map (with_core ui) (step P e (core ui))
      end
  end.

Fixpoint ui_exec (evs : list UIEvent) (ui : AppUI) : option AppUI :=
  match evs with
  | [] => Some ui
  | ev :: evs' =>
      match ui_step ev ui with
      | Some ui' => ui_exec evs' ui'
      | None => None
      end
  end.

Definition ui_reachable (ui : AppUI) : Prop :=
  exists evs, ui_exec evs mounted = Some ui.

End App.

(** The component's state a sequence of events leads to ([mounted] if
    the sequence cannot occur). *)
Definition ui_after (P : Platform) (games : list Game) (evs : list UIEvent)
  : AppUI :=
  match ui_exec P games evs mounted with
  | Some ui => ui
  | None => mounted
  end.

Module SampleUI.
Import Sample.

Definition catalog : list Game := [space_jump; puzzle].

(** The splash is over and the first item has been tapped. *)
Definition tapped_first : list UIEvent := [SplashTimerFires; Tap 0].

End SampleUI.

Module SampleMore.
Import Sample.

(** The download of [space_jump] has answered 404. *)
Definition download_failed : AppState :=
  state_after android30 [Press space_jump; DownloadSettled 0 notfound].


(** From the download to the start of polling. *)
Definition download_to_polling : list Event :=
  [DownloadSettled 0 ok200; HandoffSettled 0 (Fulfilled tt)].

(** The deadline has fired while an install query was in flight. *)
Definition timed_out_checking : list Event :=
  to_polling ++ [IntervalFires 0; DeadlineFires 0].

(** Two ticks, a negative answer and a fault. *)
Definition patient : list Event :=
  [IntervalFires 0; QuerySettled 0 (Fulfilled false); IntervalFires 0;
   QuerySettled 0 (Rejected "busy"%string)].

End SampleMore.

(** * Properties *)

(** ** The destination file name *)

Module DestFacts.
Import Dest.

Lemma word_range c : is_word c = true -> (48 <= c <= 122)%N.
Proof.
  unfold is_word, is_alnum, underscore. intros H.
  repeat (apply orb_prop in H as [H|H]);
    try (apply andb_prop in H as [H1 H2];
         apply N.leb_le in H1; apply N.leb_le in H2; lia).
  apply N.eqb_eq in H. lia.
Qed.

Lemma word_not_whitespace c : is_word c = true -> is_js_whitespace c = false.
Proof.
  intros H. apply word_range in H. unfold is_js_whitespace.
  assert (E : forall k, (123 <= k)%N -> (c =? k)%N = false)
    by (intros k Hk; apply N.eqb_neq; lia).
  assert (L : forall k, (123 <= k)%N -> (k <=? c)%N = false)
    by (intros k Hk; apply N.leb_gt; lia).
  replace (c <=? 13)%N with false by (symmetry; apply N.leb_gt; lia).
  replace (c =? 32)%N with false by (symmetry; apply N.eqb_neq; lia).
  rewrite !E by lia. rewrite (L 8192%N) by lia.
  now rewrite andb_false_r.
Qed.

Lemma replaced_is_word c :
  is_word (if is_alnum c then c else underscore) = true.
Proof.
  unfold is_word. destruct (is_alnum c) eqn:E.
  - now rewrite E.
  - reflexivity.
Qed.

Lemma replace_all_words s : forallb is_word (replace_non_alnum s) = true.
Proof.
  induction s as [|c s IH]; simpl; [reflexivity|].
  now rewrite replaced_is_word, IH.
Qed.

Lemma trim_start_words s : forallb is_word s = true -> trim_start s = s.
Proof.
  destruct s as [|c s]; simpl; [reflexivity|].
  intros H. apply andb_prop in H as [Hc _].
  now rewrite (word_not_whitespace c Hc).
Qed.

Lemma forallb_rev {A} (f : A -> bool) l : forallb f (rev l) = forallb f l.
Proof.
  induction l as [|a l IH]; simpl; [reflexivity|].
  rewrite forallb_app, IH. simpl. rewrite andb_true_r. apply andb_comm.
Qed.

(** After the replacement there is nothing for [trim] to remove. *)
Lemma trim_words s : forallb is_word s = true -> trim s = s.
Proof.
  intros H. unfold trim.
  rewrite (trim_start_words s H).
  rewrite trim_start_words by now rewrite forallb_rev.
  apply rev_involutive.
Qed.

End DestFacts.

(** C2, as the specification states it, fails on its own scenario: the
    characters outside the class are replaced by underscores, not removed,
    so ["Space Jump!"] gives [Space_Jump_.apk]; the stripping the
    specification describes would give [SpaceJump.apk]. *)
Lemma file_name_space_jump_not_stripped :
  Dest.file_name (js "Space Jump!") = js "Space_Jump_.apk"
  /\ Dest.file_name (js "Space Jump!") <> js "SpaceJump.apk"
  /\ Dest.spec_file_name (js "Space Jump!") = js "SpaceJump.apk"
  /\ forallb Dest.is_alnum (Dest.trim (Dest.replace_non_alnum (js "Space Jump!")))
     = false.
Proof. repeat split; try reflexivity. discriminate. Qed.

(** C2 (amended): for every title, the file name is the title with each
    code unit outside [A-Za-z0-9] replaced by an underscore, followed by
    [.apk]; [trim] removes nothing; the part before the extension is as
    long as the title and holds only alphanumeric code units and
    underscores; the name is a function of the title alone, and [dest] is
    the download directory, a slash and that name.  ["Space Jump!"] gives
    [Space_Jump_.apk]. *)
Theorem file_name_replaces_with_underscores (title : jsstring) :
  Dest.file_name title
  = map (fun c => if Dest.is_alnum c then c else Dest.underscore) title
    ++ js ".apk"
  /\ Dest.trim (Dest.replace_non_alnum title) = Dest.replace_non_alnum title
  /\ length (Dest.replace_non_alnum title) = length title
  /\ forallb Dest.is_word (Dest.replace_non_alnum title) = true
  /\ (forall dir, Dest.dest dir title = dir ++ js "/" ++ Dest.file_name title)
  /\ Dest.file_name (js "Space Jump!") = js "Space_Jump_.apk".
Proof.
  pose proof (DestFacts.replace_all_words title) as W.
  pose proof (DestFacts.trim_words _ W) as T.
  repeat split; try reflexivity; auto.
  - unfold Dest.file_name. now rewrite T.
  - unfold Dest.replace_non_alnum. now rewrite length_map.
Qed.

(** ** The engine: how a task changes the state *)

Section EngineFacts.

Variable P : Platform.

Lemma perform_all w acts s :
  fold_left (perform w) acts s
  = {| downloadingGame := written acts (downloadingGame s);
       trace := trace s ++ tagged w acts;
       runs := runs s; unhandled := unhandled s |}.
Proof.
  revert s. induction acts as [|a acts IH]; intros s; simpl.
  - rewrite app_nil_r. now destruct s.
  - rewrite IH. destruct a; simpl; [|reflexivity].
    now rewrite <- app_assoc.
Qed.

(** The gate of this platform either prompts or returns [true]. *)
Lemma requestPermission_start_cases :
  (requestPermission_start P = GatePrompts
   /\ OS P = android /\ Version P < 29)
  \/ (requestPermission_start P = GateReturns true
      /\ (OS P <> android \/ 29 <= Version P)).
Proof.
  unfold requestPermission_start.
  destruct (OS P) eqn:E; try (right; split; [reflexivity|left; discriminate]).
  destruct (Z.ltb_spec (Version P) 29).
  - left. auto.
  - right. auto.
Qed.

(** Every piece ends normally: each is one [try] whose handler cannot
    throw. *)
Lemma continuation_completes e r piece :
  continuation P e r = Some piece -> exists r', snd piece = Fulfilled r'.
Proof.
  destruct e; simpl.
  - discriminate.
  - destruct (stage r); intros [= <-].
    destruct p as [[| |]|]; simpl; eexists; reflexivity.
  - destruct (stage r); intros [= <-].
    unfold installGame_after_download.
    destruct p as [[c]|]; simpl; [|eexists; reflexivity].
    destruct (c =? 200); simpl; eexists; reflexivity.
  - destruct (stage r); intros [= <-].
    destruct p as [[]|]; simpl; eexists; reflexivity.
  - destruct (checkInterval r); intros [= <-]. simpl; eexists; reflexivity.
  - destruct (checking r); intros [= <-].
    destruct p as [[|]|]; simpl; eexists; reflexivity.
  - destruct (launching r); intros [= <-].
    destruct p as [[]|]; simpl; eexists; reflexivity.
  - destruct (deadline r); intros [= <-]. simpl; eexists; reflexivity.
Qed.

Lemma started_sound item :
  exists acts r',
    installGame_start P (new_run item) = (acts, Fulfilled r')
    /\ Started P item acts r'.
Proof.
  unfold installGame_start.
  destruct requestPermission_start_cases as [[E _]|[E _]]; rewrite E;
    do 2 eexists; (split; [reflexivity|]); now constructor.
Qed.

Lemma local_sound e r piece :
  continuation P e r = Some piece ->
  exists acts r', piece = (acts, Fulfilled r') /\ Local P e r acts r'.
Proof.
  destruct e; simpl.
  - discriminate.
  - destruct (stage r) eqn:St; intros [= <-].
    destruct p as [[| |]|]; do 2 eexists; (split; [reflexivity|]);
      now constructor.
  - destruct (stage r) eqn:St; intros [= <-].
    unfold installGame_after_download.
    destruct p as [res|]; simpl.
    + destruct (Z.eqb_spec (statusCode res) 200);
        do 2 eexists; (split; [reflexivity|]); now constructor.
    + do 2 eexists; (split; [reflexivity|]); now constructor.
  - destruct (stage r) eqn:St; intros [= <-].
    destruct p as [u|]; do 2 eexists; (split; [reflexivity|]);
      now constructor.
  - destruct (checkInterval r) eqn:E; intros [= <-].
    do 2 eexists; (split; [reflexivity|]); now constructor.
  - destruct (checking r) eqn:E; intros [= <-].
    destruct p as [[|]|]; do 2 eexists; (split; [reflexivity|]);
      unfold uncount_check, uncount_launch; simpl; rewrite E; simpl.
    + apply (L_installed P w r n E).
    + apply (L_not_installed P w r n E).
    + apply (L_query_error P w r n e E).
  - destruct (launching r) eqn:E; intros [= <-].
    destruct p as [u|]; do 2 eexists; (split; [reflexivity|]);
      unfold uncount_check, uncount_launch; simpl; rewrite E; simpl.
    + apply (L_launched P w r n u E).
    + apply (L_launch_error P w r n e E).
  - destruct (deadline r) eqn:E; intros [= <-].
    do 2 eexists; (split; [reflexivity|]); now constructor.
Qed.

Lemma local_complete e r acts r' :
  Local P e r acts r' -> continuation P e r = Some (acts, Fulfilled r').
Proof.
  destruct 1; simpl;
    repeat match goal with
           | H : stage _ = _ |- _ => rewrite H
           | H : checkInterval _ = _ |- _ => rewrite H
           | H : deadline _ = _ |- _ => rewrite H
           | H : checking _ = _ |- _ => rewrite H
           | H : launching _ = _ |- _ => rewrite H
           end;
    unfold installGame_start, installGame_after_download, check_after_query,
      check_after_launch, with_timers, with_callbacks, uncount_check,
      uncount_launch; simpl;
    repeat match goal with
           | H : requestPermission_start _ = _ |- _ => rewrite H
           | H : statusCode _ = _ |- _ => rewrite H
           | H : checking _ = _ |- _ => rewrite H
           | H : launching _ = _ |- _ => rewrite H
           | u : unit |- _ => destruct u
           end; simpl; try reflexivity.
  - destruct st; [congruence| |]; reflexivity.
  - destruct (Z.eqb_spec (statusCode res) 200); [contradiction|reflexivity].
Qed.

Lemma resume_after w acts r' s :
  resume w (acts, Fulfilled r') s = after w acts (<[w := r']> (runs s)) s.
Proof. unfold resume, after. simpl. now rewrite perform_all. Qed.

Lemma on_run_inv e w s s' :
  on_run P e w s = Some s' ->
  exists r acts r',
    runs s !! w = Some r /\ Local P e r acts r'
    /\ s' = after w acts (<[w := r']> (runs s)) s.
Proof.
  unfold on_run. destruct (runs s !! w) as [r|] eqn:Hr; [|discriminate].
  destruct (continuation P e r) as [piece|] eqn:Hc; [|discriminate].
  intros [= <-].
  destruct (local_sound _ _ _ Hc) as (acts & r' & -> & HL).
  exists r, acts, r'. now rewrite resume_after.
Qed.

Lemma on_run_intro e w s r acts r' :
  runs s !! w = Some r -> Local P e r acts r' ->
  on_run P e w s = Some (after w acts (<[w := r']> (runs s)) s).
Proof.
  intros Hr HL. unfold on_run.
  now rewrite Hr, (local_complete _ _ _ _ HL), resume_after.
Qed.

(** What one task can do: nothing (a press on a disabled button), start
    a new run, or resume an existing one. *)
Lemma step_inv e s s' :
  step P e s = Some s' ->
  (exists item, e = Press item /\ disabled s item = true /\ s' = s)
  \/ (exists item acts r',
         e = Press item /\ disabled s item = false
         /\ Started P item acts r'
         /\ s' = after (length (runs s)) acts (runs s ++ [r']) s)
  \/ (exists w r acts r',
         subject e = Some w /\ runs s !! w = Some r /\ Local P e r acts r'
         /\ s' = after w acts (<[w := r']> (runs s)) s).
Proof.
  intros H.
  destruct e; simpl in H;
    try (right; right; apply on_run_inv in H as (r & acts & r' & ? & ? & ?);
         eexists _, r, acts, r'; repeat split; eauto; fail).
  destruct (disabled s item) eqn:D.
  - left. exists item. injection H as <-. auto.
  - right; left.
    destruct (started_sound item) as (acts & r' & E & HS).
    rewrite E, resume_after in H. injection H as <-.
    exists item, acts, r'. repeat split; auto.
    unfold after; simpl. f_equal.
    rewrite insert_app_r_alt, Nat.sub_diag by reflexivity. reflexivity.
Qed.

Lemma step_resume e w s r acts r' :
  subject e = Some w -> runs s !! w = Some r -> Local P e r acts r' ->
  step P e s = Some (after w acts (<[w := r']> (runs s)) s).
Proof.
  intros Hs Hr HL.
  destruct e; simpl in Hs; try discriminate; injection Hs as ->; simpl;
    now apply on_run_intro with (r := r).
Qed.

(** *** Sequences of tasks *)

Lemma exec_app es1 es2 s :
  exec P (es1 ++ es2) s
  = match exec P es1 s with Some s' => exec P es2 s' | None => None end.
Proof.
  revert s. induction es1 as [|e es1 IH]; intros s; simpl; [reflexivity|].
  destruct (step P e s); [apply IH|reflexivity].
Qed.

Lemma reachable_init : reachable P init.
Proof. now exists []. Qed.

Lemma reachable_step e s s' :
  reachable P s -> step P e s = Some s' -> reachable P s'.
Proof.
  intros [es Hes] Hs. exists (es ++ [e]).
  rewrite exec_app, Hes. simpl. now rewrite Hs.
Qed.

Lemma reachable_exec es s s' :
  reachable P s -> exec P es s = Some s' -> reachable P s'.
Proof.
  intros [es0 H0] H. exists (es0 ++ es). now rewrite exec_app, H0.
Qed.

(** Induction on the tasks that led to a state. *)
Lemma reachable_ind (Q : AppState -> Prop) :
  Q init ->
  (forall e s s', reachable P s -> Q s -> step P e s = Some s' -> Q s') ->
  forall s, reachable P s -> Q s.
Proof.
  intros Hinit Hstep s [es Hes]. revert s Hes.
  induction es as [|e es IH] using rev_ind; intros s Hes.
  - simpl in Hes. now injection Hes as <-.
  - rewrite exec_app in Hes.
    destruct (exec P es init) as [s0|] eqn:E0; [|discriminate].
    simpl in Hes. destruct (step P e s0) as [s1|] eqn:E1; [|discriminate].
    injection Hes as <-.
    apply (Hstep e s0 s1); auto. now exists es.
Qed.

(** A property every task preserves holds along every sequence. *)
Lemma exec_preserves (Q : AppState -> Prop) :
  (forall e s s', Q s -> step P e s = Some s' -> Q s') ->
  forall es s s', Q s -> exec P es s = Some s' -> Q s'.
Proof.
  intros Hstep es. induction es as [|e es IH]; intros s s' HQ H; simpl in H.
  - now injection H as <-.
  - destruct (step P e s) as [s1|] eqn:E; [|discriminate]. eauto.
Qed.

(** *** The calls of one run *)

Lemma own_app w tr1 tr2 : own w (tr1 ++ tr2) = own w tr1 ++ own w tr2.
Proof.
  induction tr1 as [|[w' c] tr1 IH]; simpl; [reflexivity|].
  destruct (w' =? w)%nat; simpl; now rewrite IH.
Qed.

Lemma own_tagged w acts : own w (tagged w acts) = calls_in acts.
Proof.
  induction acts as [|[c|v] acts IH]; simpl; auto.
  now rewrite Nat.eqb_refl, IH.
Qed.

Lemma own_tagged_other w w' acts : w <> w' -> own w' (tagged w acts) = [].
Proof.
  intros Hne. induction acts as [|[c|v] acts IH]; simpl; auto.
  destruct (Nat.eqb_spec w w'); [contradiction|auto].
Qed.

Lemma count_app what h1 h2 :
  count what (h1 ++ h2) = (count what h1 + count what h2)%nat.
Proof. induction h1 as [|c h1 IH]; simpl; [reflexivity|]. rewrite IH. lia. Qed.

Lemma own_after w acts rs s :
  own w (trace (after w acts rs s)) = own w (trace s) ++ calls_in acts.
Proof. simpl. now rewrite own_app, own_tagged. Qed.

Lemma own_after_other w w' acts rs s :
  w <> w' -> own w' (trace (after w acts rs s)) = own w' (trace s).
Proof.
  intros Hne. simpl.
  now rewrite own_app, own_tagged_other, app_nil_r.
Qed.

(** No call is attributed to a run that does not exist yet. *)
Lemma own_fresh s :
  reachable P s -> forall w, (length (runs s) <= w)%nat -> own w (trace s) = [].
Proof.
  revert s. apply (reachable_ind (fun s => forall w, _ -> _));
    [reflexivity|].
  intros e s s' _ IH Hs w Hw.
  apply step_inv in Hs
      as [(item & _ & _ & ->)
         |[(item & acts & r' & _ & _ & _ & ->)
          |(w0 & r & acts & r' & _ & Hr & _ & ->)]]; auto.
  - simpl in Hw. rewrite length_app in Hw. simpl in Hw.
    rewrite own_after_other by lia. apply IH. lia.
  - simpl in Hw. rewrite length_insert in Hw.
    apply lookup_lt_Some in Hr.
    rewrite own_after_other by lia. now apply IH.
Qed.

(** Lifting a property of one run and its own calls to every run of
    every reachable state: it has to hold of a new run at its first
    suspension, and each transition of the table has to preserve it. *)
Lemma runs_invariant (R : list Call -> Run -> Prop) :
  (forall item acts r', Started P item acts r' -> R (calls_in acts) r') ->
  (forall e r acts r' h,
      Local P e r acts r' -> R h r -> R (h ++ calls_in acts) r') ->
  forall s, reachable P s ->
  forall w r, runs s !! w = Some r -> R (own w (trace s)) r.
Proof.
  intros Hnew Hlocal.
  apply (reachable_ind (fun s => forall w r, _ -> _)); [discriminate|].
  intros e s s' Hreach IH Hs w r Hr.
  apply step_inv in Hs
      as [(item & _ & _ & ->)
         |[(item & acts & r' & _ & _ & HL & ->)
          |(w0 & r0 & acts & r' & _ & Hr0 & HL & ->)]]; auto.
  - simpl in Hr.
    destruct (decide (w = length (runs s))) as [->|Hne].
    + rewrite lookup_app_r, Nat.sub_diag in Hr by reflexivity.
      injection Hr as <-.
      rewrite own_after, (own_fresh s Hreach) by reflexivity.
      now apply (Hnew item).
    + assert (Hlt : (w < length (runs s))%nat).
      { apply lookup_lt_Some in Hr. rewrite length_app in Hr.
        simpl in Hr. lia. }
      rewrite lookup_app_l in Hr by assumption.
      rewrite own_after_other by lia. now apply IH.
  - simpl in Hr.
    destruct (decide (w = w0)) as [->|Hne].
    + rewrite list_lookup_insert_eq in Hr
        by (now apply lookup_lt_Some in Hr0).
      injection Hr as <-.
      rewrite own_after. apply (Hlocal _ _ _ _ _ HL). now apply IH.
    + rewrite list_lookup_insert_ne in Hr by congruence.
      rewrite own_after_other by congruence. now apply IH.
Qed.

End EngineFacts.

(** ** Invariants of the reachable states *)

Section Invariants.

Variable P : Platform.

Lemma history_ok_started item acts r' :
  Started P item acts r' -> history_ok (calls_in acts) r'.
Proof. destruct 1; repeat split. Qed.

Lemma history_ok_local e r acts r' h :
  Local P e r acts r' -> history_ok h r -> history_ok (h ++ calls_in acts) r'.
Proof.
  unfold history_ok.
  destruct 1 as [ | | | | | | | |w r E|w r n E|w r n E|w r n e E|w r n u E
                |w r n e E|w r E];
    simpl; rewrite ?count_app; simpl;
    repeat match goal with
           | H : stage _ = _ |- _ => rewrite H
           end; simpl; rewrite ?Nat.add_0_r;
    try (intros (Hi & Hrest);
         first [exact Hi | split; [exact Hi|intuition lia] | intuition lia]).
  all: destruct (stage r) as [| | |[]]; intros Hh;
    try (exfalso;
         assert (Hi : idle r) by (first [exact Hh | exact (proj1 Hh)]);
         destruct Hi as (? & ? & ? & ? & ?); congruence).
  all: simpl in *; try rewrite E in *; try destruct (deadline r);
    repeat match goal with
           | H : idle _ |- _ => destruct H as (? & ? & ? & ? & ?)
           | H : _ /\ _ |- _ => destruct H
           end; try split; lia.
Qed.

(** Where a run stands bounds what it has called so far. *)
Lemma history_invariant s :
  reachable P s ->
  forall w r, runs s !! w = Some r -> history_ok (own w (trace s)) r.
Proof.
  apply runs_invariant.
  - apply history_ok_started.
  - apply history_ok_local.
Qed.

(** Every rejection is caught: nothing is ever left unhandled. *)
Lemma no_unhandled_step e s s' :
  step P e s = Some s' -> unhandled s' = unhandled s.
Proof.
  intros Hs.
  apply step_inv in Hs
      as [(item & _ & _ & ->)
         |[(item & acts & r' & _ & _ & _ & ->)
          |(w0 & r & acts & r' & _ & _ & _ & ->)]]; reflexivity.
Qed.

Lemma no_unhandled s : reachable P s -> unhandled s = [].
Proof.
  revert s. apply reachable_ind; [reflexivity|].
  intros e s s' _ IH Hs. now rewrite (no_unhandled_step _ _ _ Hs).
Qed.

Lemma local_game e r acts r' : Local P e r acts r' -> game r' = game r.
Proof. now destruct 1. Qed.

(** What a transition does to the busy slot: it clears it, or sets it
    to the item of a run that is then downloading, or leaves it as it is,
    and then a run that was downloading or handing off still is. *)
Lemma local_busy e r acts r' d :
  Local P e r acts r' ->
  written acts d = None
  \/ (written acts d = Some (id (game r)) /\ holds_busy (stage r') = true)
  \/ (written acts d = d
      /\ (holds_busy (stage r) = true -> holds_busy (stage r') = true)).
Proof.
  destruct 1; simpl; auto;
    right; right; (split; [reflexivity|]);
    repeat match goal with H : stage _ = _ |- _ => rewrite H end; auto.
Qed.

Lemma busy_invariant s : reachable P s -> busy_has_run s.
Proof.
  revert s. apply reachable_ind; [intros i; discriminate|].
  intros e s s' _ IH Hs i Hi.
  apply step_inv in Hs
      as [(item & _ & _ & ->)
         |[(item & acts & r' & _ & _ & HS & ->)
          |(w0 & r & acts & r' & _ & Hr & HL & ->)]]; auto.
  - destruct HS; simpl in Hi |- *.
    + destruct (IH i Hi) as (w & r & Hr & Hid & Hb).
      exists w, r. rewrite lookup_app_l by (now apply lookup_lt_Some in Hr).
      auto.
    + injection Hi as <-.
      exists (length (runs s)), (goto AtDownload (new_run item)).
      rewrite lookup_app_r, Nat.sub_diag by reflexivity. auto.
  - simpl in Hi |- *. pose proof (lookup_lt_Some _ _ _ Hr) as Hlt.
    destruct (local_busy _ _ _ _ (downloadingGame s) HL)
      as [E|[[E Hb]|[E Hb]]]; rewrite E in Hi.
    + discriminate.
    + injection Hi as <-. exists w0, r'.
      rewrite list_lookup_insert_eq by assumption.
      rewrite (local_game _ _ _ _ HL). auto.
    + destruct (IH i Hi) as (w & r1 & Hr1 & Hid & Hb1).
      destruct (decide (w = w0)) as [->|Hne].
      * assert (r1 = r) by congruence. subst r1. exists w0, r'.
        rewrite list_lookup_insert_eq by assumption.
        rewrite (local_game _ _ _ _ HL). auto.
      * exists w, r1. rewrite list_lookup_insert_ne by congruence. auto.
Qed.

(** A run that has returned without starting the polling is never
    resumed: it has no timer and awaits nothing. *)
Lemma exited_no_transition e r acts r' x :
  Local P e r acts r' -> stage r = Returned x -> x <> Polling -> idle r ->
  False.
Proof.
  intros HL St Hx (I1 & I2 & I3 & I4 & _).
  destruct HL; congruence.
Qed.

Lemma exited_run_step e s s' w r x :
  runs s !! w = Some r -> stage r = Returned x -> x <> Polling -> idle r ->
  step P e s = Some s' ->
  runs s' !! w = Some r /\ own w (trace s') = own w (trace s).
Proof.
  intros Hr St Hx Hi Hs. pose proof (lookup_lt_Some _ _ _ Hr) as Hlt.
  apply step_inv in Hs
      as [(item & _ & _ & ->)
         |[(item & acts & r' & _ & _ & _ & ->)
          |(w0 & r0 & acts & r' & _ & Hr0 & HL & ->)]]; auto.
  - simpl. rewrite lookup_app_l by assumption. split; [assumption|].
    rewrite own_app, own_tagged_other, app_nil_r by lia. reflexivity.
  - destruct (decide (w0 = w)) as [->|Hne].
    + exfalso. assert (r0 = r) by congruence. subst r0.
      eapply exited_no_transition; eauto.
    + simpl. rewrite list_lookup_insert_ne by assumption.
      split; [assumption|].
      rewrite own_app, own_tagged_other, app_nil_r by assumption. reflexivity.
Qed.

Lemma exited_run_is_final es s s' w r x :
  runs s !! w = Some r -> stage r = Returned x -> x <> Polling -> idle r ->
  exec P es s = Some s' ->
  runs s' !! w = Some r /\ own w (trace s') = own w (trace s).
Proof.
  intros Hr St Hx Hi.
  revert s Hr. induction es as [|e es IH]; intros s Hr H; simpl in H.
  - injection H as <-. auto.
  - destruct (step P e s) as [s1|] eqn:E; [|discriminate].
    destruct (exited_run_step _ _ _ _ _ _ Hr St Hx Hi E) as [Hr1 Ho].
    destruct (IH s1 Hr1 H) as [Hr' Ho']. split; [assumption|congruence].
Qed.

End Invariants.

(** ** C1: the guard of the install button *)

(** C1, as the specification states it, fails.  On Android 11, once the
    installer has been opened line 73 resets [downloadingGame] while the
    first run is still polling: a second press on the same item starts a
    second run.  And [downloadingGame] is one slot for the whole list: a
    press on another item overwrites it, and the first item, still being
    downloaded, can be started again. *)
Lemma second_run_while_first_in_flight :
  (exists s,
      exec Sample.android30
           (Sample.to_polling ++ [Press Sample.space_jump]) init = Some s
      /\ workflow_state s 0 = PollingForInstall
      /\ workflow_state s 1 = Downloading
      /\ in_flight_runs s (id Sample.space_jump) = [0; 1]%nat)
  /\ (exists s,
         exec Sample.android30
              [Press Sample.space_jump; Press Sample.puzzle;
               Press Sample.space_jump] init = Some s
         /\ workflow_state s 0 = Downloading
         /\ workflow_state s 2 = Downloading
         /\ in_flight_runs s (id Sample.space_jump) = [0; 2]%nat).
Proof. split; eexists; (split; [reflexivity|]); repeat split. Qed.

Section Guard.

Variable P : Platform.

Lemma disabled_iff s item :
  disabled s item = true <-> downloadingGame s = Some (id item).
Proof.
  unfold disabled. destruct (downloadingGame s) as [i|]; [|easy].
  rewrite Z.eqb_eq. split; congruence.
Qed.

(** C1 (amended): a press on an item's button starts no workflow exactly
    when [downloadingGame] is that item's identifier: the state is then
    unchanged.  [downloadingGame] names an item only while one of its runs
    is between the start of the download and the end of the handoff.  In
    every other state a press starts a new run and leaves the earlier runs,
    of this item too, as they are. *)
Theorem press_guard (s : AppState) (item : Game) :
  reachable P s ->
  (disabled s item = true <-> downloadingGame s = Some (id item))
  /\ (disabled s item = true ->
      step P (Press item) s = Some s
      /\ exists w r, runs s !! w = Some r /\ id (game r) = id item
                     /\ holds_busy (stage r) = true)
  /\ (disabled s item = false ->
      exists s' r',
        step P (Press item) s = Some s'
        /\ runs s' = runs s ++ [r'] /\ game r' = item
        /\ (stage r' = AtPermission \/ stage r' = AtDownload)).
Proof.
  intros Hreach. split; [apply disabled_iff|]. split.
  - intros D. split; [simpl; now rewrite D|].
    apply (busy_invariant P s Hreach). now apply disabled_iff.
  - intros D.
    destruct (started_sound P item) as (acts & r' & E & HS).
    exists (after (length (runs s)) acts (runs s ++ [r']) s), r'.
    split; [|split; [reflexivity|destruct HS; auto]].
    simpl. rewrite D, E, resume_after. unfold after; simpl. do 2 f_equal.
    rewrite insert_app_r_alt, Nat.sub_diag by reflexivity. reflexivity.
Qed.

End Guard.

Lemma reachable_state_after P es :
  exec P es init <> None -> reachable P (state_after P es).
Proof.
  unfold state_after. intros H. exists es.
  destruct (exec P es init); [reflexivity|contradiction].
Qed.

Lemma press_guard_witness :
  let s := state_after Sample.android30 [Press Sample.space_jump] in
  reachable Sample.android30 s
  /\ step Sample.android30 (Press Sample.space_jump) s = Some s
  /\ exists s' r', step Sample.android30 (Press Sample.puzzle) s = Some s'
                   /\ runs s' = runs s ++ [r'].
Proof.
  intros s.
  assert (R : reachable Sample.android30 s)
    by (apply reachable_state_after; discriminate).
  split; [exact R|]. split.
  - apply (press_guard Sample.android30 s Sample.space_jump R). reflexivity.
  - destruct (press_guard Sample.android30 s Sample.puzzle R)
      as (_ & _ & H).
    destruct (H eq_refl) as (s' & r' & H1 & H2 & _). eauto.
Defined.

(** ** C3 and C4: the download and the permission *)

(** C3, as the specification states it, fails in its middle part: a run
    whose download resolved with status 200 is not safe from failure.
    The handoff of line 66 is awaited inside the [try]; when it is
    rejected (no installer can open the file), the [catch] block of
    lines 97-101 fails the run, which made its one handoff call. *)
Lemma status_200_then_rejected_handoff_fails :
  exists s s',
    exec Sample.android30
         [Press Sample.space_jump; DownloadSettled 0 Sample.ok200] init
    = Some s
    /\ workflow_state s 0 = HandingOffToInstaller
    /\ step Sample.android30
            (HandoffSettled 0 (Rejected "no installer"%string)) s
       = Some s'
    /\ workflow_state s' 0 = Failed (InstallError "no installer"%string)
    /\ calls is_actionViewIntent 0 (trace s') = 1%nat
    /\ trace s'
       = trace s ++ [(0%nat, console_error "no installer"%string);
                     (0%nat, Alert_alert InstallErrorAlert)]
    /\ downloadingGame s' = None.
Proof.
  do 2 eexists. split; [reflexivity|]. split; [reflexivity|].
  repeat split.
Qed.

Section Transfer.

Variable P : Platform.

Lemma exec_preserves_if (ok : Event -> Prop) (Q : AppState -> Prop) :
  (forall e s s', ok e -> Q s -> step P e s = Some s' -> Q s') ->
  forall es s s', Forall ok es -> Q s -> exec P es s = Some s' -> Q s'.
Proof.
  intros Hstep es. induction es as [|e es IH]; intros s s' Hok HQ H;
    simpl in H.
  - now injection H as <-.
  - destruct (step P e s) as [s1|] eqn:E; [|discriminate].
    inversion Hok; subst. eauto.
Qed.

Lemma workflow_state_lookup s w r :
  runs s !! w = Some r ->
  workflow_state s w
  = match stage r with
    | AtPermission => AwaitingPermission
    | AtDownload => Downloading
    | AtHandoff => HandingOffToInstaller
    | Returned Denied => Failed PermissionDenied
    | Returned (BadStatus c) => Failed (DownloadFailed c)
    | Returned (Caught e) => Failed (InstallError e)
    | Returned Polling =>
        match launched r, calls is_alert_installed w (trace s) with
        | S _, _ => Launched
        | O, S _ => Installed
        | O, O => if deadline r then PollingForInstall else TimedOut
        end
    end.
Proof. intros H. unfold workflow_state. now rewrite H. Qed.

Lemma past_download_not_failed w s :
  past_download w s -> forall reason, workflow_state s w <> Failed reason.
Proof.
  intros (r & Hr & [St|St]) reason;
    rewrite (workflow_state_lookup _ _ _ Hr), St; [discriminate|].
  destruct (launched r); [|discriminate].
  destruct (calls _ _ _); [|discriminate].
  destruct (deadline r); discriminate.
Qed.

Lemma past_download_step w e s s' :
  not_handoff_rejection w e -> past_download w s ->
  step P e s = Some s' -> past_download w s'.
Proof.
  intros Hok (r & Hr & St) Hs.
  pose proof (lookup_lt_Some _ _ _ Hr) as Hlt.
  apply step_inv in Hs
      as [(item & _ & _ & ->)
         |[(item & acts & r' & _ & _ & _ & ->)
          |(w0 & r0 & acts & r' & Hsub & Hr0 & HL & ->)]].
  - now exists r.
  - exists r. simpl. now rewrite lookup_app_l.
  - destruct (decide (w0 = w)) as [->|Hne].
    + assert (r0 = r) by congruence. subst r0.
      exists r'. simpl. rewrite list_lookup_insert_eq by assumption.
      split; [reflexivity|].
      destruct HL; simpl in *; try (destruct St; congruence); auto.
      injection Hsub as ->. now destruct (Hok e).
    + exists r. simpl. now rewrite list_lookup_insert_ne.
Qed.

(** Past the download a run fails in one way only: its handoff call is
    rejected, and the [catch] block of lines 97-101 takes the error. *)
Lemma past_download_fails_by_rejection w es :
  forall s s'',
    reachable P s -> past_download w s -> exec P es s = Some s'' ->
    (past_download w s'' /\ Forall (not_handoff_rejection w) es)
    \/ exists err, In (HandoffSettled w (Rejected err)) es
                   /\ workflow_state s'' w = Failed (InstallError err).
Proof.
  induction es as [|e es IH]; intros s s'' Hreach Hpast H; simpl in H.
  - injection H as <-. left. split; [assumption|apply List.Forall_nil].
  - destruct (step P e s) as [s1|] eqn:E; [|discriminate].
    pose proof (reachable_step P e s s1 Hreach E) as Hreach1.
    assert (D : not_handoff_rejection w e
                \/ exists err, e = HandoffSettled w (Rejected err)).
    { destruct e as [item|w0 p|w0 d|w0 [u|err]|w0|w0 q|w0 l|w0];
        try (left; intros err; discriminate).
      destruct (decide (w0 = w)) as [->|Hne]; [right; now exists err|].
      left. intros err' [=]. contradiction. }
    destruct D as [Hok|[err ->]].
    + destruct (IH s1 s'' Hreach1 (past_download_step w e s s1 Hok Hpast E) H)
        as [[Hp Hall]|(err & Hin & Hw)].
      * left. split; [exact Hp|now apply List.Forall_cons].
      * right. exists err. split; [now right|exact Hw].
    + right. exists err. split; [now left|].
      apply step_inv in E
          as [(item & He & _)
             |[(item & acts & r' & He & _)
              |(w0 & r & acts & r' & Hsub & Hr & HL & ->)]];
        try discriminate.
      injection Hsub as <-.
      pose proof (lookup_lt_Some _ _ _ Hr) as Hlt.
      pose proof (history_invariant P s Hreach w r Hr) as Hh.
      inversion HL as [| | | | | | |w1 r1 e1 St| | | | | | |]; subst.
      unfold history_ok in Hh. rewrite St in Hh. destruct Hh as (Hidle & _).
      set (s1 := after w _ _ s) in *.
      assert (Hr1 : runs s1 !! w = Some (goto (Returned (Caught err)) r))
        by (simpl; now rewrite list_lookup_insert_eq).
      destruct (exited_run_is_final P es s1 s'' w _ _ Hr1 eq_refl
                  ltac:(discriminate) Hidle H) as [Hr'' _].
      now rewrite (workflow_state_lookup _ _ _ Hr'').
Qed.

(** C3: when the transfer resolves, the handoff is attempted if and only
    if the status code is 200.  With 200 the run calls the installer
    intent (its first and only such call) and stands at the handoff.  A
    rejection of that call fails the run, through the [catch] block, and
    nothing else does: after any continuation the run is failed exactly
    when the continuation holds a rejection of its handoff, and it is
    then failed with the error of such a rejection.  With any other
    status the run alerts that the download failed,
    is failed with that status, and never calls the installer intent. *)
Theorem handoff_iff_status_200 (s : AppState) (w : nat) (r : Run)
    (res : DownloadResult) :
  reachable P s -> runs s !! w = Some r -> stage r = AtDownload ->
  exists s',
    step P (DownloadSettled w (Fulfilled res)) s = Some s'
    /\ (calls is_actionViewIntent w (trace s') = 1%nat <-> statusCode res = 200)
    /\ (statusCode res = 200 ->
        workflow_state s' w = HandingOffToInstaller
        /\ trace s'
           = trace s
             ++ [(w, actionViewIntent (dest_of P (game r)) apk_mime authority)]
        /\ (forall es s'',
            Forall (not_handoff_rejection w) es ->
            exec P es s' = Some s'' ->
            forall reason, workflow_state s'' w <> Failed reason)
        /\ (forall es s'',
            exec P es s' = Some s'' ->
            ((exists reason, workflow_state s'' w = Failed reason)
             <-> exists err, In (HandoffSettled w (Rejected err)) es)
            /\ forall reason,
                workflow_state s'' w = Failed reason ->
                exists err, reason = InstallError err
                            /\ In (HandoffSettled w (Rejected err)) es)
        /\ (forall err, exists s'',
            step P (HandoffSettled w (Rejected err)) s' = Some s''
            /\ workflow_state s'' w = Failed (InstallError err)))
    /\ (statusCode res <> 200 ->
        workflow_state s' w = Failed (DownloadFailed (statusCode res))
        /\ trace s' = trace s ++ [(w, Alert_alert DownloadFailedAlert)]
        /\ forall es s'',
            exec P es s' = Some s'' ->
            workflow_state s'' w = Failed (DownloadFailed (statusCode res))
            /\ calls is_actionViewIntent w (trace s'') = 0%nat).
Proof.
  intros Hreach Hr St.
  pose proof (lookup_lt_Some _ _ _ Hr) as Hlt.
  pose proof (history_invariant P s Hreach w r Hr) as Hh.
  unfold history_ok in Hh. rewrite St in Hh.
  destruct Hh as (Hidle & Hview & _).
  destruct (Z.eq_dec (statusCode res) 200) as [E|E].
  - pose proof (L_downloaded P w r res St E) as HL.
    assert (Hstep : step P (DownloadSettled w (Fulfilled res)) s
                    = Some (after w
                      [Do (actionViewIntent (dest_of P (game r)) apk_mime
                             authority)]
                      (<[w:=goto AtHandoff r]> (runs s)) s))
      by (eapply step_resume; [|exact Hr|exact HL]; reflexivity).
    eexists. split; [exact Hstep|].
    assert (Hc : calls is_actionViewIntent w
                   (trace (after w
                      [Do (actionViewIntent (dest_of P (game r)) apk_mime
                             authority)]
                      (<[w:=goto AtHandoff r]> (runs s)) s)) = 1%nat).
    { unfold calls. rewrite own_after, count_app, Hview. reflexivity. }
    split; [tauto|]. split; [|contradiction].
    set (s' := after w _ _ s) in *.
    assert (Hr' : runs s' !! w = Some (goto AtHandoff r))
      by (simpl; now rewrite list_lookup_insert_eq).
    assert (Hpast : past_download w s')
      by (exists (goto AtHandoff r); split; [exact Hr'|now left]).
    pose proof (reachable_step P _ s s' Hreach Hstep) as Hreach'.
    intros _. split; [|split; [reflexivity|split; [|split]]].
    + now rewrite (workflow_state_lookup _ _ _ Hr').
    + intros es s'' Hok Hex.
      apply past_download_not_failed.
      refine (exec_preserves_if (not_handoff_rejection w) (past_download w)
                _ es _ s'' Hok Hpast Hex).
      intros e0 s0 s1. apply past_download_step.
    + intros es s'' Hex.
      destruct (past_download_fails_by_rejection w es s' s'' Hreach' Hpast Hex)
        as [[Hp Hall]|(err & Hin & Hw')].
      * split; [split|].
        -- intros [reason Hw].
           now destruct (past_download_not_failed w s'' Hp reason).
        -- intros [err Hin]. rewrite List.Forall_forall in Hall.
           now destruct (Hall _ Hin err).
        -- intros reason Hw.
           now destruct (past_download_not_failed w s'' Hp reason).
      * split; [split|].
        -- intros _. now exists err.
        -- intros _. now exists (InstallError err).
        -- intros reason Hw. exists err. split; [congruence|exact Hin].
    + intros err.
      pose proof (L_handoff_error P w (goto AtHandoff r) err eq_refl) as HL'.
      eexists. split; [eapply step_resume; [|exact Hr'|exact HL']; reflexivity|].
      unfold workflow_state; simpl.
      rewrite list_lookup_insert_eq; [reflexivity|].
      now rewrite length_insert.
  - pose proof (L_bad_status P w r res St E) as HL.
    eexists. split; [eapply step_resume; [|exact Hr|exact HL]; reflexivity|].
    set (s' := after w _ _ s).
    assert (Hr' : runs s' !! w
                  = Some (goto (Returned (BadStatus (statusCode res))) r))
      by (simpl; now rewrite list_lookup_insert_eq).
    assert (Hc : calls is_actionViewIntent w (trace s') = 0%nat).
    { unfold calls, s'. rewrite own_after, count_app, Hview. reflexivity. }
    split; [rewrite Hc; split; [discriminate|contradiction]|].
    split; [contradiction|].
    intros _. split; [|split; [reflexivity|]].
    + now rewrite (workflow_state_lookup _ _ _ Hr').
    + intros es s'' Hex.
      destruct (exited_run_is_final P es s' s'' w _ _ Hr' eq_refl
                  ltac:(discriminate) Hidle Hex) as [Hr'' Ho].
      split; [now rewrite (workflow_state_lookup _ _ _ Hr'')|].
      unfold calls in *. now rewrite Ho.
Qed.

(** C4: when the permission gate returns [false], the run raises the
    "permission denied" alert, and nothing else, and is failed for that
    reason; whatever happens later, that alert remains the only alert of
    the run and the run never calls the transfer function. *)
Theorem permission_denied_once (s : AppState) (w : nat) (r : Run)
    (p : Settled PermissionStatus) :
  reachable P s -> runs s !! w = Some r -> stage r = AtPermission ->
  requestPermission_resume p = Fulfilled false ->
  exists s',
    step P (PermissionSettled w p) s = Some s'
    /\ trace s' = trace s ++ [(w, Alert_alert PermissionDeniedAlert)]
    /\ downloadingGame s' = downloadingGame s
    /\ forall es s'',
        exec P es s' = Some s'' ->
        workflow_state s'' w = Failed PermissionDenied
        /\ calls is_alert_denied w (trace s'') = 1%nat
        /\ calls is_alert w (trace s'') = 1%nat
        /\ calls is_downloadFile w (trace s'') = 0%nat.
Proof.
  intros Hreach Hr St Hp.
  pose proof (lookup_lt_Some _ _ _ Hr) as Hlt.
  pose proof (history_invariant P s Hreach w r Hr) as Hh.
  unfold history_ok in Hh. rewrite St in Hh.
  destruct Hh as (Hidle & Halert & Hdown & _).
  destruct p as [st|e]; [|discriminate].
  assert (Hst : st <> GRANTED) by (intros ->; discriminate).
  pose proof (L_denied P w r st St Hst) as HL.
  eexists. split; [eapply step_resume; [|exact Hr|exact HL]; reflexivity|].
  set (s' := after w _ _ s).
  split; [reflexivity|]. split; [reflexivity|].
  intros es s'' Hex.
  assert (Hr' : runs s' !! w = Some (goto (Returned Denied) r))
    by (simpl; now rewrite list_lookup_insert_eq).
  destruct (exited_run_is_final P es s' s'' w _ _ Hr' eq_refl
              ltac:(discriminate) Hidle Hex) as [Hr'' Ho].
  split; [now rewrite (workflow_state_lookup _ _ _ Hr'')|].
  assert (Hdenied : count is_alert_denied (own w (trace s)) = 0%nat).
  { clear - Halert. induction (own w (trace s)) as [|c h IH];
      [reflexivity|]. simpl in *.
    destruct c as [|[]| | | | | | | | |]; simpl in *; try lia; auto. }
  unfold calls. rewrite Ho. unfold s'.
  rewrite own_after, !count_app, Halert, Hdown, Hdenied. auto.
Qed.

End Transfer.

(** ** C5 and C6: the deadline and the timers *)

(** C5, as the specification states it, fails in its last part: when the
    deadline passes without a positive answer, line 92 clears the interval
    and does nothing else.  The run is timed out and no alert is raised
    for it; its only alert is the "downloading" one of line 50. *)
Lemma timeout_raises_no_alert :
  exists s s',
    exec Sample.android30
         (Sample.to_polling
            ++ [IntervalFires 0; QuerySettled 0 (Fulfilled false)]) init
    = Some s
    /\ step Sample.android30 (DeadlineFires 0) s = Some s'
    /\ workflow_state s 0 = PollingForInstall
    /\ workflow_state s' 0 = TimedOut
    /\ trace s' = trace s ++ [(0%nat, clearInterval)]
    /\ (calls is_alert 0 (trace s') - calls is_alert 0 (trace s) <> 1)%nat
    /\ filter (fun c => is_alert c = true) (own 0 (trace s'))
       = [Alert_alert (DownloadingAlert (title Sample.space_jump))].
Proof.
  do 2 eexists. split; [reflexivity|]. split; [reflexivity|].
  repeat split. discriminate.
Qed.

Section Deadline.

Variable P : Platform.

Lemma started_no_report item acts r' :
  Started P item acts r' -> count is_alert_installed (calls_in acts) = O.
Proof. now destruct 1. Qed.

(** Only a positive answer of the install query raises the "installed"
    alert. *)
Lemma local_no_report e r acts r' :
  Local P e r acts r' ->
  (forall w, e <> QuerySettled w (Fulfilled true)) ->
  count is_alert_installed (calls_in acts) = O.
Proof.
  destruct 1; intros Hne; try reflexivity. now destruct (Hne w).
Qed.

Lemma no_report_step w e s s' :
  not_installed_answer w e -> step P e s = Some s' ->
  calls is_alert_installed w (trace s')
  = calls is_alert_installed w (trace s).
Proof.
  intros Hok Hs. unfold calls.
  apply step_inv in Hs
      as [(item & _ & _ & ->)
         |[(item & acts & r' & _ & _ & HS & ->)
          |(w0 & r0 & acts & r' & Hsub & Hr0 & HL & ->)]]; auto.
  - simpl. rewrite own_app, count_app.
    destruct (decide (length (runs s) = w)) as [->|Hne].
    + rewrite own_tagged, (started_no_report _ _ _ HS). lia.
    + rewrite own_tagged_other by assumption. simpl. lia.
  - simpl. rewrite own_app, count_app.
    destruct (decide (w0 = w)) as [->|Hne].
    + rewrite own_tagged, (local_no_report _ _ _ _ HL); [lia|].
      intros w1 ->. simpl in Hsub. injection Hsub as ->. now apply Hok.
    + rewrite own_tagged_other by assumption. simpl. lia.
Qed.

Lemma no_report_exec w es s s' :
  Forall (not_installed_answer w) es -> exec P es s = Some s' ->
  calls is_alert_installed w (trace s')
  = calls is_alert_installed w (trace s).
Proof.
  revert s. induction es as [|e es IH]; intros s Hok H; simpl in H.
  - now injection H as <-.
  - destruct (step P e s) as [s1|] eqn:E; [|discriminate].
    inversion Hok; subst.
    rewrite (IH s1) by assumption. now apply no_report_step with (e := e).
Qed.

(** Once the deadline has fired, the run has no timer left, for good, and
    asks no further install query. *)
Lemma timers_gone_step w k e s s' :
  timers_gone w k s -> step P e s = Some s' -> timers_gone w k s'.
Proof.
  intros (Hk & r & Hr & St & Hi & Hd) Hs.
  pose proof (lookup_lt_Some _ _ _ Hr) as Hlt. unfold timers_gone, calls in *.
  apply step_inv in Hs
      as [(item & _ & _ & ->)
         |[(item & acts & r' & _ & _ & HS & ->)
          |(w0 & r0 & acts & r' & Hsub & Hr0 & HL & ->)]]; eauto 10.
  - simpl. rewrite own_app, own_tagged_other, app_nil_r by lia.
    split; [assumption|]. exists r. now rewrite lookup_app_l.
  - simpl. rewrite own_app.
    destruct (decide (w0 = w)) as [->|Hne].
    + assert (r0 = r) by congruence. subst r0.
      rewrite own_tagged, count_app, list_lookup_insert_eq by assumption.
      destruct HL; simpl in *; try congruence;
        (split; [lia|]); eexists; (split; [reflexivity|]); auto.
    + rewrite own_tagged_other, app_nil_r by assumption.
      split; [assumption|]. exists r. now rewrite list_lookup_insert_ne.
Qed.

Lemma timed_out_step w a e s s' :
  not_installed_answer w e ->
  timed_out w a s -> step P e s = Some s' -> timed_out w a s'.
Proof.
  intros Hok (Ha & Hrep & Hclear & r & Hr & St & Hd & Hl1 & Hl2) Hs.
  pose proof (lookup_lt_Some _ _ _ Hr) as Hlt. unfold timed_out, calls in *.
  apply step_inv in Hs
      as [(item & _ & _ & ->)
         |[(item & acts & r' & _ & _ & HS & ->)
          |(w0 & r0 & acts & r' & Hsub & Hr0 & HL & ->)]]; eauto 12.
  - simpl. rewrite own_app, own_tagged_other, app_nil_r by lia.
    repeat (split; [assumption|]). exists r. now rewrite lookup_app_l.
  - simpl. rewrite own_app.
    destruct (decide (w0 = w)) as [->|Hne].
    + assert (r0 = r) by congruence. subst r0.
      rewrite own_tagged, !count_app, list_lookup_insert_eq by assumption.
      destruct HL; simpl in *; try congruence;
        try (repeat (split; [lia|]); eexists; (split; [reflexivity|]);
             simpl; auto; fail).
    + rewrite own_tagged_other, app_nil_r by assumption.
      repeat (split; [assumption|]).
      exists r. now rewrite list_lookup_insert_ne.
Qed.

Lemma timed_out_state w a s : timed_out w a s -> workflow_state s w = TimedOut.
Proof.
  intros (_ & Hrep & _ & r & Hr & St & Hd & _ & Hl).
  now rewrite (workflow_state_lookup _ _ _ Hr), St, Hl, Hrep, Hd.
Qed.

(** C5 (amended): if no install query of the run has answered [true]
    when its 20-second timer fires (the one timeout the run has set, next
    to its one 2-second interval), the run is timed out: the timer clears
    the interval, which is the first and only [clearInterval] of the run;
    whatever happens later, the run asks no further install query and has
    no timer left.  No alert is raised for the time-out: the run has the
    alerts it had before, and, as long as no query still in flight answers
    [true], it stays timed out with those alerts and that one
    [clearInterval]. *)
Theorem deadline_times_out (es : list Event) (s : AppState) (w : nat)
    (r : Run) :
  exec P es init = Some s ->
  Forall (not_installed_answer w) es ->
  runs s !! w = Some r -> deadline r = true ->
  exists s',
    step P (DeadlineFires w) s = Some s'
    /\ workflow_state s w = PollingForInstall
    /\ calls is_setInterval w (trace s) = 1%nat
    /\ calls is_setTimeout w (trace s) = 1%nat
    /\ workflow_state s' w = TimedOut
    /\ trace s' = trace s ++ [(w, clearInterval)]
    /\ calls is_clearInterval w (trace s') = 1%nat
    /\ calls is_alert w (trace s') = calls is_alert w (trace s)
    /\ forall es' s'',
        exec P es' s' = Some s'' ->
        calls is_isAppInstalled w (trace s'')
        = calls is_isAppInstalled w (trace s')
        /\ (exists r'', runs s'' !! w = Some r'' /\ live_timers r'' = O)
        /\ (Forall (not_installed_answer w) es' ->
            workflow_state s'' w = TimedOut
            /\ calls is_clearInterval w (trace s'') = 1%nat
            /\ calls is_alert w (trace s'') = calls is_alert w (trace s)).
Proof.
  intros Hex Hok Hr Hd.
  assert (Hreach : reachable P s) by (now exists es).
  pose proof (lookup_lt_Some _ _ _ Hr) as Hlt.
  assert (Hrep : calls is_alert_installed w (trace s) = O)
    by (now rewrite (no_report_exec w es init s Hok Hex)).
  pose proof (history_invariant P s Hreach w r Hr) as Hh.
  unfold history_ok in Hh.
  assert (St : stage r = Returned Polling).
  { destruct (stage r) as [| | |[]]; auto;
      try (destruct Hh as ((_ & H & _) & _); congruence).
    all: destruct Hh as (_ & H & _); congruence. }
  rewrite St, Hd in Hh. fold (calls is_clearInterval w (trace s)) in Hh.
  fold (calls is_alert_installed w (trace s)) in Hh.
  rewrite Hrep in Hh. destruct Hh as (Hclear & Hlaunch & Hint & Htim).
  pose proof (L_deadline P w r Hd) as HL.
  eexists. split; [eapply step_resume; [|exact Hr|exact HL]; reflexivity|].
  set (s' := after w _ _ s).
  assert (Hr' : runs s' !! w = Some (with_timers false false r))
    by (simpl; now rewrite list_lookup_insert_eq).
  assert (Hto : timed_out w (calls is_alert w (trace s)) s').
  { unfold timed_out, calls, s'. rewrite own_after, !count_app. simpl.
    unfold calls in Hclear, Hrep. rewrite Hclear, Hrep.
    repeat (split; [lia|]). eexists. split; [exact Hr'|].
    simpl. repeat split; auto; lia. }
  split.
  { rewrite (workflow_state_lookup _ _ _ Hr), St, Hrep, Hd.
    now replace (launched r) with O by lia. }
  split; [exact Hint|]. split; [exact Htim|].
  split; [now apply timed_out_state with (a := calls is_alert w (trace s))|].
  split; [reflexivity|].
  split; [apply Hto|]. split; [apply Hto|].
  intros es' s'' Hex'.
  assert (Hgone : timers_gone w (calls is_isAppInstalled w (trace s')) s'').
  { refine (exec_preserves P (timers_gone w _) _ es' s' s'' _ Hex').
    - intros e0 s0 s1. apply timers_gone_step.
    - split; [reflexivity|]. eexists. split; [exact Hr'|]. now simpl. }
  destruct Hgone as (Hk & r'' & Hr'' & _ & Hi'' & Hd'').
  split; [exact Hk|]. split.
  { exists r''. split; [assumption|]. unfold live_timers.
    now rewrite Hi'', Hd''. }
  intros Hok'.
  assert (Hto'' : timed_out w (calls is_alert w (trace s)) s'').
  { refine (exec_preserves_if P (not_installed_answer w) (timed_out w _) _
              es' s' s'' Hok' Hto Hex').
    intros e0 s0 s1. apply timed_out_step. }
  split; [now apply timed_out_state with (a := calls is_alert w (trace s))|].
  split; apply Hto''.
Qed.

End Deadline.

(** C6, as the specification states it, fails on the success path: the
    20-second timer is never cancelled.  After a positive answer the
    interval has been cleared and the installed alert raised, the timer is
    still pending, and when it fires it calls [clearInterval] a second
    time. *)
Lemma deadline_timer_outlives_success :
  exists s s' r,
    exec Sample.android30
         (Sample.to_polling
            ++ [IntervalFires 0; QuerySettled 0 (Fulfilled true)]) init
    = Some s
    /\ workflow_state s 0 = Installed
    /\ runs s !! 0%nat = Some r
    /\ checkInterval r = false /\ deadline r = true /\ live_timers r = 1%nat
    /\ calls is_clearInterval 0 (trace s) = 1%nat
    /\ step Sample.android30 (DeadlineFires 0) s = Some s'
    /\ calls is_clearInterval 0 (trace s') = 2%nat.
Proof.
  do 3 eexists. split; [reflexivity|]. split; [reflexivity|].
  split; [reflexivity|]. repeat split.
Qed.

Section Timers.

Variable P : Platform.

Lemma polling_of_timer s w r :
  reachable P s -> runs s !! w = Some r ->
  checkInterval r = true \/ deadline r = true
  \/ checking r <> O \/ launching r <> O ->
  stage r = Returned Polling.
Proof.
  intros Hreach Hr H.
  pose proof (history_invariant P s Hreach w r Hr) as Hh.
  unfold history_ok in Hh.
  destruct (stage r) as [| | |[]]; auto; exfalso;
    assert (Hi : idle r) by (first [exact Hh | exact (proj1 Hh)]);
    destruct Hi as (? & ? & ? & ? & ?); intuition congruence.
Qed.

(** Nothing but its own firing ends the 20-second timer. *)
Lemma deadline_stays e s s' w r :
  runs s !! w = Some r -> deadline r = true ->
  e <> DeadlineFires w -> step P e s = Some s' ->
  exists r', runs s' !! w = Some r' /\ deadline r' = true.
Proof.
  intros Hr Hd Hne Hs. pose proof (lookup_lt_Some _ _ _ Hr) as Hlt.
  apply step_inv in Hs
      as [(item & _ & _ & ->)
         |[(item & acts & r' & _ & _ & HS & ->)
          |(w0 & r0 & acts & r' & Hsub & Hr0 & HL & ->)]]; eauto.
  - exists r. simpl. now rewrite lookup_app_l.
  - destruct (decide (w0 = w)) as [->|Hw].
    + assert (r0 = r) by congruence. subst r0.
      exists r'. simpl. rewrite list_lookup_insert_eq by assumption.
      split; [reflexivity|].
      destruct HL; simpl in *; auto.
      injection Hsub as ->. contradiction.
    + exists r. simpl. now rewrite list_lookup_insert_ne.
Qed.

(** C6 (amended): a polling run has set one 2-second interval and one
    20-second timer.  On the success path the interval is cleared before
    the installed alert is raised, and the 20-second timer is left pending;
    nothing cancels that timer, it ends by firing, and then it clears the
    interval (once more, if an answer had cleared it) and the run has no
    timer left, for good.  So [clearInterval] is called once for every
    installed alert and once at the deadline.  A run that failed never had
    a timer. *)
Theorem poll_timers_released (s : AppState) (w : nat) (r : Run) :
  reachable P s -> runs s !! w = Some r ->
  (forall n, checking r = S n ->
     exists s' r',
       step P (QuerySettled w (Fulfilled true)) s = Some s'
       /\ trace s'
          = trace s
            ++ [(w, clearInterval);
                (w, Alert_alert (InstalledAlert (title (game r))));
                (w, startAppByPackageName (packageName (game r)))]
       /\ runs s' !! w = Some r'
       /\ checkInterval r' = false /\ deadline r' = deadline r)
  /\ (deadline r = true ->
      (forall e s', e <> DeadlineFires w -> step P e s = Some s' ->
         exists r', runs s' !! w = Some r' /\ deadline r' = true)
      /\ exists s',
          step P (DeadlineFires w) s = Some s'
          /\ trace s' = trace s ++ [(w, clearInterval)]
          /\ forall es s'',
              exec P es s' = Some s'' ->
              exists r'', runs s'' !! w = Some r'' /\ live_timers r'' = O)
  /\ (stage r = Returned Polling ->
      calls is_setInterval w (trace s) = 1%nat
      /\ calls is_setTimeout w (trace s) = 1%nat
      /\ calls is_clearInterval w (trace s)
         = (calls is_alert_installed w (trace s)
            + if deadline r then 0 else 1)%nat)
  /\ (forall reason, workflow_state s w = Failed reason -> live_timers r = O).
Proof.
  intros Hreach Hr. pose proof (lookup_lt_Some _ _ _ Hr) as Hlt.
  pose proof (history_invariant P s Hreach w r Hr) as Hh.
  split; [|split; [|split]].
  - intros n Hn. pose proof (L_installed P w r n Hn) as HL.
    do 2 eexists.
    split; [eapply step_resume; [|exact Hr|exact HL]; reflexivity|].
    split; [reflexivity|]. simpl.
    rewrite list_lookup_insert_eq by assumption. auto.
  - intros Hd. split; [intros e s'; now apply deadline_stays with (r := r)|].
    assert (St : stage r = Returned Polling)
      by (apply (polling_of_timer s w r Hreach Hr); auto).
    pose proof (L_deadline P w r Hd) as HL.
    eexists.
    split; [eapply step_resume; [|exact Hr|exact HL]; reflexivity|].
    split; [reflexivity|].
    intros es s'' Hex.
    set (s' := after w _ _ s) in Hex.
    assert (Hgone : timers_gone w (calls is_isAppInstalled w (trace s')) s'').
    { refine (exec_preserves P (timers_gone w _) _ es s' s'' _ Hex).
      - intros e0 s0 s1. apply timers_gone_step.
      - split; [reflexivity|]. eexists. simpl.
        rewrite list_lookup_insert_eq by assumption.
        split; [reflexivity|]. now simpl. }
    destruct Hgone as (_ & r'' & Hr'' & _ & Hi'' & Hd'').
    exists r''. split; [assumption|]. unfold live_timers.
    now rewrite Hi'', Hd''.
  - intros St. unfold history_ok in Hh. rewrite St in Hh.
    destruct Hh as (Hclear & _ & Hint & Htim). auto.
  - intros reason Hf.
    rewrite (workflow_state_lookup _ _ _ Hr) in Hf.
    unfold history_ok in Hh. unfold live_timers.
    destruct (stage r) as [| | |[]]; try discriminate;
      try (destruct Hh as (-> & -> & _); reflexivity).
    destruct (launched r); [|discriminate].
    destruct (calls _ _ _); [|discriminate].
    destruct (deadline r); discriminate.
Qed.

End Timers.

(** ** C7 and C8: faults of the install query and of the launch *)

Section Faults.

Variable P : Platform.

Lemma count_firstn_le what k (h : list Call) :
  (count what (firstn k h) <= count what h)%nat.
Proof.
  revert k. induction h as [|c h IH]; intros [|k]; simpl; try lia.
  specialize (IH k). lia.
Qed.

Lemma follow_app_quiet h a :
  launches_follow_reports h -> count is_startApp a = O ->
  launches_follow_reports (h ++ a).
Proof.
  intros Hh Ha k. rewrite firstn_app, !count_app.
  pose proof (Hh k).
  pose proof (count_firstn_le is_startApp (k - length h) a). lia.
Qed.

Lemma follow_app_report h t pkg :
  launches_follow_reports h ->
  launches_follow_reports
    (h ++ [clearInterval; Alert_alert (InstalledAlert t);
           startAppByPackageName pkg]).
Proof.
  intros Hh k. rewrite firstn_app, !count_app. pose proof (Hh k).
  destruct (k - length h)%nat as [|[|[|[|]]]]; simpl; lia.
Qed.

Lemma follow_nil : launches_follow_reports [].
Proof. intros [|k]; simpl; lia. Qed.

(** Only a positive answer of the install query calls the launch. *)
Lemma local_launch e r acts r' :
  Local P e r acts r' ->
  count is_startApp (calls_in acts) = O
  \/ ((exists w, e = QuerySettled w (Fulfilled true))
      /\ calls_in acts
         = [clearInterval; Alert_alert (InstalledAlert (title (game r)));
            startAppByPackageName (packageName (game r))]).
Proof. destruct 1; simpl; eauto. Qed.

Lemma launches_invariant s :
  reachable P s ->
  forall w r, runs s !! w = Some r -> launches_follow_reports (own w (trace s)).
Proof.
  apply (runs_invariant P (fun h _ => launches_follow_reports h)).
  - intros item acts r' HS.
    apply (follow_app_quiet [] _ follow_nil). now destruct HS.
  - intros e r acts r' h HL Hh.
    destruct (local_launch _ _ _ _ HL) as [E|[_ E]].
    + now apply follow_app_quiet.
    + rewrite E. now apply follow_app_report.
Qed.

Lemma calls_console_log what w s msg :
  what (console_log msg) = false ->
  calls what w (trace s ++ [(w, console_log msg)]) = calls what w (trace s).
Proof.
  intros H. unfold calls. rewrite own_app, count_app. simpl.
  rewrite Nat.eqb_refl. simpl. rewrite H. lia.
Qed.

(** C7: a fault of the install query is caught in the callback that
    made the query and logged with [console.log]; beyond that log line
    the state is the one a negative answer gives.  No alert is raised,
    nothing is left unhandled, the run is where it was and in the same
    workflow state, which is not a failure, its timers are as they were,
    and if the interval is still set it can fire again. *)
Theorem query_fault_is_not_yet_installed (s : AppState) (w : nat) (r : Run)
    (n : nat) (err : Error) :
  reachable P s -> runs s !! w = Some r -> checking r = S n ->
  exists s' s0 r',
    step P (QuerySettled w (Rejected err)) s = Some s'
    /\ step P (QuerySettled w (Fulfilled false)) s = Some s0
    /\ trace s' = trace s ++ [(w, console_log checking_message)]
    /\ trace s' = trace s0 ++ [(w, console_log checking_message)]
    /\ runs s' = runs s0
    /\ downloadingGame s' = downloadingGame s0
    /\ downloadingGame s' = downloadingGame s
    /\ unhandled s' = []
    /\ runs s' !! w = Some r'
    /\ stage r' = stage r
    /\ checkInterval r' = checkInterval r /\ deadline r' = deadline r
    /\ workflow_state s' w = workflow_state s w
    /\ (forall reason, workflow_state s' w <> Failed reason)
    /\ (checkInterval r = true ->
        exists s2, step P (IntervalFires w) s' = Some s2).
Proof.
  intros Hreach Hr Hn. pose proof (lookup_lt_Some _ _ _ Hr) as Hlt.
  pose proof (L_query_error P w r n err Hn) as HL.
  pose proof (L_not_installed P w r n Hn) as HL0.
  assert (St : stage r = Returned Polling)
    by (apply (polling_of_timer P s w r Hreach Hr); rewrite Hn; auto).
  do 3 eexists.
  split; [eapply step_resume; [|exact Hr|exact HL]; reflexivity|].
  split; [eapply step_resume; [|exact Hr|exact HL0]; reflexivity|].
  set (r' := with_callbacks n (launching r) (launched r) r).
  set (s' := after w [Do (console_log checking_message)] _ s).
  assert (Hr' : runs s' !! w = Some r')
    by (simpl; now rewrite list_lookup_insert_eq).
  assert (Hw : workflow_state s' w = workflow_state s w).
  { rewrite (workflow_state_lookup _ _ _ Hr'),
      (workflow_state_lookup _ _ _ Hr).
    simpl. now rewrite calls_console_log. }
  split; [reflexivity|]. split; [simpl; now rewrite app_nil_r|].
  do 3 (split; [reflexivity|]).
  split; [simpl; now apply no_unhandled with (P := P)|].
  split; [exact Hr'|]. do 3 (split; [reflexivity|]).
  split; [exact Hw|]. split.
  - apply past_download_not_failed. exists r'. auto.
  - intros Hi. eexists.
    eapply step_resume; [|exact Hr'|apply L_check; exact Hi]. reflexivity.
Qed.

(** C8: the launch is called only by the callback that has just raised
    the installed alert, right after it: in every prefix of a run's calls
    the launches are no more than the installed alerts, and a task that
    adds a launch call is a positive answer of the install query, which
    adds [clearInterval], the alert and the launch, in that order.  A
    fault of the launch is logged and swallowed: the run is installed (or
    launched, by another callback) before and after, no alert is raised
    and nothing is left unhandled. *)
Theorem launch_only_after_installed (s : AppState) (w : nat) (r : Run) :
  reachable P s -> runs s !! w = Some r ->
  launches_follow_reports (own w (trace s))
  /\ (forall e s',
        step P e s = Some s' ->
        calls is_startApp w (trace s') <> calls is_startApp w (trace s) ->
        e = QuerySettled w (Fulfilled true)
        /\ own w (trace s')
           = own w (trace s)
             ++ [clearInterval;
                 Alert_alert (InstalledAlert (title (game r)));
                 startAppByPackageName (packageName (game r))])
  /\ (forall n err,
        launching r = S n ->
        exists s',
          step P (LaunchSettled w (Rejected err)) s = Some s'
          /\ trace s' = trace s ++ [(w, console_log checking_message)]
          /\ calls is_alert w (trace s') = calls is_alert w (trace s)
          /\ unhandled s' = []
          /\ downloadingGame s' = downloadingGame s
          /\ workflow_state s' w = workflow_state s w
          /\ (workflow_state s w = Installed \/ workflow_state s w = Launched)).
Proof.
  intros Hreach Hr. pose proof (lookup_lt_Some _ _ _ Hr) as Hlt.
  split; [now apply (launches_invariant s Hreach w r)|]. split.
  - intros e s' Hs Hne. unfold calls in Hne.
    apply step_inv in Hs
        as [(item & _ & _ & ->)
           |[(item & acts & r' & _ & _ & HS & ->)
            |(w0 & r0 & acts & r' & Hsub & Hr0 & HL & ->)]].
    + contradiction.
    + exfalso. apply Hne. simpl.
      now rewrite own_app, own_tagged_other, app_nil_r by lia.
    + destruct (decide (w0 = w)) as [->|Hw].
      * assert (r0 = r) by congruence. subst r0.
        rewrite own_after in Hne |- *. rewrite count_app in Hne.
        destruct (local_launch _ _ _ _ HL) as [E|[[w1 ->] E]].
        -- rewrite E in Hne. lia.
        -- simpl in Hsub. injection Hsub as ->. now rewrite E.
      * exfalso. apply Hne. simpl.
        now rewrite own_app, own_tagged_other, app_nil_r.
  - intros n err Hn.
    pose proof (L_launch_error P w r n err Hn) as HL.
    assert (St : stage r = Returned Polling)
      by (apply (polling_of_timer P s w r Hreach Hr); rewrite Hn; auto 6).
    pose proof (history_invariant P s Hreach w r Hr) as Hh.
    unfold history_ok in Hh. rewrite St, Hn in Hh.
    destruct Hh as (_ & Hh & _).
    eexists.
    split; [eapply step_resume; [|exact Hr|exact HL]; reflexivity|].
    set (r' := with_callbacks (checking r) n (launched r) r).
    set (s' := after w [Do (console_log checking_message)] _ s).
    assert (Hr' : runs s' !! w = Some r')
      by (simpl; now rewrite list_lookup_insert_eq).
    split; [reflexivity|].
    split; [simpl; now rewrite calls_console_log|].
    split; [simpl; now apply no_unhandled with (P := P)|].
    split; [reflexivity|]. split.
    + rewrite (workflow_state_lookup _ _ _ Hr'),
        (workflow_state_lookup _ _ _ Hr).
      simpl. now rewrite calls_console_log.
    + rewrite (workflow_state_lookup _ _ _ Hr), St.
      fold (calls is_alert_installed w (trace s)) in Hh.
      destruct (launched r); [|auto].
      destruct (calls is_alert_installed w (trace s)); [lia|auto].
Qed.

End Faults.

(** ** C9: the permission gate *)

(** C9, as the specification states it, fails in its first part:
    [requestPermission] has no [try], so when the request of line 32 is
    rejected the promise the gate returned is rejected too; the gate
    throws, it does not return [false]. *)
Lemma gate_throws_when_request_rejects :
  requestPermission Sample.android28 (Rejected "E_INVALID_ACTIVITY"%string)
  = (Rejected "E_INVALID_ACTIVITY"%string, true)
  /\ fst (requestPermission Sample.android28 (Rejected "E_INVALID_ACTIVITY"%string))
     <> Fulfilled false.
Proof. split; [reflexivity|discriminate]. Qed.

(** C9 (amended): where no consent is required (not Android, or Android
    with version 29 or more) the gate returns [true] without prompting.
    On Android below 29 it prompts once; when the request is answered it
    returns [true] for [GRANTED] and [false] for any other answer; when
    the request is rejected the gate rejects with the same error, and it
    is [installGame] that catches it, in its [catch] block: error log,
    busy slot cleared, generic error alert. *)
Theorem gate_outcomes (P : Platform) (answer : Settled PermissionStatus) :
  (OS P <> android \/ 29 <= Version P ->
   requestPermission P answer = (Fulfilled true, false))
  /\ (OS P = android /\ Version P < 29 ->
      requestPermission P answer
      = (match answer with
         | Fulfilled st => Fulfilled (is_granted st)
         | Rejected e => Rejected e
         end, true))
  /\ (forall st, is_granted st = true <-> st = GRANTED)
  /\ (forall r e,
        installGame_after_permission P r (Rejected e)
        = ([Do (console_error e); SetDownloadingGame None;
            Do (Alert_alert InstallErrorAlert)],
           Fulfilled (goto (Returned (Caught e)) r))).
Proof.
  unfold requestPermission.
  split; [|split; [|split]].
  - intros H.
    destruct (requestPermission_start_cases P) as [(E & Ho & Hv)|(E & _)];
      rewrite E; [|reflexivity].
    destruct H; [contradiction|lia].
  - intros (Ho & Hv).
    destruct (requestPermission_start_cases P) as [(E & _)|(E & H)];
      rewrite E; [now destruct answer|].
    destruct H; [contradiction|lia].
  - intros st. destruct st; simpl; split; congruence.
  - reflexivity.
Qed.

Lemma gate_outcomes_witness :
  (OS Sample.android28 = android /\ Version Sample.android28 < 29)
  /\ requestPermission Sample.android28 (Fulfilled DENIED)
     = (Fulfilled false, true)
  /\ (OS Sample.android30 <> android \/ 29 <= Version Sample.android30)
  /\ requestPermission Sample.android30 (Fulfilled DENIED)
     = (Fulfilled true, false).
Proof.
  assert (H28 : OS Sample.android28 = android /\ Version Sample.android28 < 29)
    by (split; [reflexivity|simpl; lia]).
  assert (H30 : OS Sample.android30 <> android \/ 29 <= Version Sample.android30)
    by (right; simpl; lia).
  split; [exact H28|]. split.
  - exact (proj1 (proj2 (gate_outcomes Sample.android28 (Fulfilled DENIED)))
             H28).
  - split; [exact H30|].
    exact (proj1 (gate_outcomes Sample.android30 (Fulfilled DENIED)) H30).
Defined.

(** ** C10: the busy indicator *)

(** C10, as the specification states it, fails in its last part.  On
    Android 9 a press only opens the permission prompt and leaves
    [downloadingGame] as it is, so the same item can be pressed twice.
    When the first request is granted, its run sets [downloadingGame] to
    the item (line 49); when the second is denied, its run returns at
    line 46 without writing anything: it has ended, failed, and the busy
    indicator of its item is still set and its button disabled. *)
Lemma denied_run_ends_with_indicator_set :
  exists s r,
    exec Sample.android28
         [Press Sample.space_jump; Press Sample.space_jump;
          PermissionSettled 0 (Fulfilled GRANTED);
          PermissionSettled 1 (Fulfilled DENIED)] init
    = Some s
    /\ runs s !! 1%nat = Some r
    /\ game r = Sample.space_jump
    /\ workflow_state s 1 = Failed PermissionDenied
    /\ workflow_state s 0 = Downloading
    /\ downloadingGame s = Some (id (game r))
    /\ disabled s (game r) = true.
Proof.
  do 2 eexists. split; [reflexivity|]. split; [reflexivity|].
  repeat split.
Qed.

Section Busy.

Variable P : Platform.

(** C10: a run that waits for its handoff can be resumed either way, and
    that task leaves [downloadingGame] cleared (line 73, or line 99); a
    run that waits for its download and is resumed with a status other
    than 200, or with a rejection, is failed by a task that leaves it
    cleared (line 95, or line 99); so is a run whose permission request
    is rejected.  More generally every task in which a run leaves the
    download or the handoff leaves it cleared.  The tasks of a polling run
    do not write [downloadingGame], and neither does a denied permission:
    that run returns at line 46, before line 49.  In every state
    [downloadingGame] names only an item one of whose runs is downloading
    or handing off. *)
Theorem busy_indicator_cleared (s : AppState) (w : nat) (r : Run) :
  reachable P s -> runs s !! w = Some r ->
  (stage r = AtHandoff ->
   forall p, exists s',
     step P (HandoffSettled w p) s = Some s'
     /\ downloadingGame s' = None
     /\ workflow_state s' w <> HandingOffToInstaller)
  /\ (stage r = AtDownload ->
      forall d, (forall res, d = Fulfilled res -> statusCode res <> 200) ->
      exists s' reason,
        step P (DownloadSettled w d) s = Some s'
        /\ downloadingGame s' = None
        /\ workflow_state s' w = Failed reason)
  /\ (stage r = AtPermission ->
      forall err, exists s',
        step P (PermissionSettled w (Rejected err)) s = Some s'
        /\ downloadingGame s' = None
        /\ workflow_state s' w = Failed (InstallError err))
  /\ (stage r = AtPermission ->
      forall st, st <> GRANTED -> exists s',
        step P (PermissionSettled w (Fulfilled st)) s = Some s'
        /\ downloadingGame s' = downloadingGame s
        /\ workflow_state s' w = Failed PermissionDenied)
  /\ (forall e s' r',
        step P e s = Some s' -> runs s' !! w = Some r' ->
        holds_busy (stage r) = true -> holds_busy (stage r') = false ->
        downloadingGame s' = None)
  /\ (forall e s',
        stage r = Returned Polling -> subject e = Some w ->
        step P e s = Some s' ->
        downloadingGame s' = downloadingGame s)
  /\ busy_has_run s.
Proof.
  intros Hreach Hr. pose proof (lookup_lt_Some _ _ _ Hr) as Hlt.
  assert (Hgo : forall e acts r',
             Local P e r acts r' -> subject e = Some w ->
             step P e s = Some (after w acts (<[w:=r']> (runs s)) s)
             /\ runs (after w acts (<[w:=r']> (runs s)) s) !! w = Some r').
  { intros e acts r' HL Hsub. split.
    - now apply step_resume with (r := r).
    - simpl. now rewrite list_lookup_insert_eq. }
  split; [|split; [|split; [|split; [|split; [|split]]]]].
  - intros St [u|err].
    + destruct (Hgo _ _ _ (L_handed_off P w r u St) eq_refl) as [Hs Hr'].
      eexists. split; [exact Hs|]. split; [reflexivity|].
      rewrite (workflow_state_lookup _ _ _ Hr'). simpl.
      destruct (launched r); [|discriminate].
      destruct (calls _ _ _); discriminate.
    + destruct (Hgo _ _ _ (L_handoff_error P w r err St) eq_refl) as [Hs Hr'].
      eexists. split; [exact Hs|]. split; [reflexivity|].
      rewrite (workflow_state_lookup _ _ _ Hr'). discriminate.
  - intros St [res|err] Hd.
    + destruct (Hgo _ _ _ (L_bad_status P w r res St (Hd res eq_refl))
                  eq_refl) as [Hs Hr'].
      eexists _, _. split; [exact Hs|]. split; [reflexivity|].
      now rewrite (workflow_state_lookup _ _ _ Hr').
    + destruct (Hgo _ _ _ (L_download_error P w r err St) eq_refl)
        as [Hs Hr'].
      eexists _, _. split; [exact Hs|]. split; [reflexivity|].
      now rewrite (workflow_state_lookup _ _ _ Hr').
  - intros St err.
    destruct (Hgo _ _ _ (L_permission_error P w r err St) eq_refl)
      as [Hs Hr'].
    eexists. split; [exact Hs|]. split; [reflexivity|].
    now rewrite (workflow_state_lookup _ _ _ Hr').
  - intros St st Hst.
    destruct (Hgo _ _ _ (L_denied P w r st St Hst) eq_refl) as [Hs Hr'].
    eexists. split; [exact Hs|]. split; [reflexivity|].
    now rewrite (workflow_state_lookup _ _ _ Hr').
  - intros e s' r' Hs Hr' Hb Hb'.
    apply step_inv in Hs
        as [(item & -> & _ & ->)
           |[(item & acts & r0' & -> & _ & HS & ->)
            |(w0 & r0 & acts & r0' & Hsub & Hr0 & HL & ->)]].
    + assert (r' = r) by congruence. subst r'. congruence.
    + simpl in Hr'. rewrite lookup_app_l in Hr' by assumption.
      assert (r' = r) by congruence. subst r'. congruence.
    + destruct (decide (w0 = w)) as [->|Hw].
      * assert (r0 = r) by congruence. subst r0.
        simpl in Hr'. rewrite list_lookup_insert_eq in Hr' by assumption.
        injection Hr' as <-.
        destruct HL; simpl in *; try congruence; auto;
          match goal with
          | H : stage ?r = _, H1 : holds_busy (stage ?r) = true |- _ =>
              rewrite H in H1; discriminate
          end.
      * simpl in Hr'. rewrite list_lookup_insert_ne in Hr' by assumption.
        assert (r' = r) by congruence. subst r'. congruence.
  - intros e s' St Hsub Hs.
    apply step_inv in Hs
        as [(item & -> & _ & ->)
           |[(item & acts & r0' & -> & _ & HS & ->)
            |(w0 & r0 & acts & r0' & Hsub' & Hr0 & HL & ->)]];
      try discriminate.
    assert (w0 = w) by congruence. subst w0.
    assert (r0 = r) by congruence. subst r0.
    destruct HL; simpl in *; try congruence; reflexivity.
  - now apply (busy_invariant P).
Qed.

End Busy.

Lemma busy_indicator_cleared_witness :
  let s := state_after Sample.android30 [Press Sample.space_jump] in
  let t := state_after Sample.android30
             [Press Sample.space_jump; DownloadSettled 0 Sample.ok200] in
  reachable Sample.android30 s /\ reachable Sample.android30 t
  /\ downloadingGame s = Some 1 /\ downloadingGame t = Some 1
  /\ (exists s' reason,
         step Sample.android30 (DownloadSettled 0 Sample.notfound) s = Some s'
         /\ downloadingGame s' = None
         /\ workflow_state s' 0 = Failed reason)
  /\ (exists s' reason,
         step Sample.android30
              (DownloadSettled 0 (Rejected "network"%string)) s = Some s'
         /\ downloadingGame s' = None
         /\ workflow_state s' 0 = Failed reason)
  /\ (forall p, exists t',
         step Sample.android30 (HandoffSettled 0 p) t = Some t'
         /\ downloadingGame t' = None
         /\ workflow_state t' 0 <> HandingOffToInstaller).
Proof.
  intros s t.
  assert (R : reachable Sample.android30 s)
    by (apply reachable_state_after; discriminate).
  assert (R' : reachable Sample.android30 t)
    by (apply reachable_state_after; discriminate).
  split; [exact R|]. split; [exact R'|].
  split; [reflexivity|]. split; [reflexivity|].
  destruct (busy_indicator_cleared Sample.android30 s 0%nat _ R eq_refl)
    as (_ & Hd & _).
  destruct (busy_indicator_cleared Sample.android30 t 0%nat _ R' eq_refl)
    as (Hh & _).
  split; [|split].
  - apply (Hd eq_refl). intros res [= <-]. discriminate.
  - apply (Hd eq_refl). intros res [=].
  - exact (Hh eq_refl).
Defined.

(** ** The theorems at sample states *)

Section Witnesses.

Import Sample SampleStates.

Lemma handoff_iff_status_200_witness :
  reachable android30 downloading
  /\ (exists r, runs downloading !! 0%nat = Some r /\ stage r = AtDownload)
  /\ (exists s',
         step android30 (DownloadSettled 0 notfound) downloading = Some s'
         /\ workflow_state s' 0 = Failed (DownloadFailed 404)
         /\ calls is_actionViewIntent 0 (trace s') = 0%nat)
  /\ (exists s',
         step android30 (DownloadSettled 0 ok200) downloading = Some s'
         /\ workflow_state s' 0 = HandingOffToInstaller
         /\ calls is_actionViewIntent 0 (trace s') = 1%nat).
Proof.
  assert (R : reachable android30 downloading)
    by (apply reachable_state_after; discriminate).
  split; [exact R|].
  split; [eexists; split; reflexivity|]. split.
  - destruct (handoff_iff_status_200 android30 downloading 0%nat _
                {| statusCode := 404 |} R eq_refl eq_refl)
      as (s' & Hs & _ & _ & H404).
    destruct (H404 ltac:(discriminate)) as (Hw & _ & Hall).
    exists s'. split; [exact Hs|]. split; [exact Hw|].
    exact (proj2 (Hall [] s' eq_refl)).
  - destruct (handoff_iff_status_200 android30 downloading 0%nat _
                {| statusCode := 200 |} R eq_refl eq_refl)
      as (s' & Hs & Hiff & H200 & _).
    exists s'. split; [exact Hs|].
    split; [exact (proj1 (H200 eq_refl))|exact (proj2 Hiff eq_refl)].
Defined.

Lemma permission_denied_once_witness :
  reachable android28 prompting
  /\ (exists r, runs prompting !! 0%nat = Some r /\ stage r = AtPermission)
  /\ requestPermission_resume (Fulfilled DENIED) = Fulfilled false
  /\ exists s',
      step android28 (PermissionSettled 0 (Fulfilled DENIED)) prompting
      = Some s'
      /\ workflow_state s' 0 = Failed PermissionDenied
      /\ calls is_alert_denied 0 (trace s') = 1%nat
      /\ calls is_downloadFile 0 (trace s') = 0%nat.
Proof.
  assert (R : reachable android28 prompting)
    by (apply reachable_state_after; discriminate).
  split; [exact R|].
  split; [eexists; split; reflexivity|]. split; [reflexivity|].
  destruct (permission_denied_once android28 prompting 0%nat _
              (Fulfilled DENIED) R eq_refl eq_refl eq_refl)
    as (s' & Hs & _ & _ & Hall).
  destruct (Hall [] s' eq_refl) as (Hw & Hd & _ & Hf).
  exists s'. auto.
Defined.

Lemma deadline_times_out_witness :
  exec android30 answered_no init = Some (state_after android30 answered_no)
  /\ Forall (not_installed_answer 0) answered_no
  /\ (exists r, runs (state_after android30 answered_no) !! 0%nat = Some r
                /\ deadline r = true)
  /\ exists s',
      step android30 (DeadlineFires 0) (state_after android30 answered_no)
      = Some s'
      /\ workflow_state s' 0 = TimedOut
      /\ calls is_clearInterval 0 (trace s') = 1%nat.
Proof.
  assert (F : Forall (not_installed_answer 0) answered_no)
    by (repeat (constructor; [discriminate|]); constructor).
  split; [reflexivity|]. split; [exact F|].
  split; [eexists; split; reflexivity|].
  destruct (deadline_times_out android30 answered_no
              (state_after android30 answered_no) 0%nat _
              eq_refl F eq_refl eq_refl)
    as (s' & Hs & _ & _ & _ & Hw & _ & Hc & _).
  exists s'. auto.
Defined.

Lemma poll_timers_released_witness :
  let s := state_after android30 checking_once in
  reachable android30 s
  /\ (exists r, runs s !! 0%nat = Some r /\ checking r = 1%nat
                /\ deadline r = true)
  /\ (exists s' r',
         step android30 (QuerySettled 0 (Fulfilled true)) s = Some s'
         /\ runs s' !! 0%nat = Some r'
         /\ checkInterval r' = false /\ deadline r' = true)
  /\ exists s',
      step android30 (DeadlineFires 0) s = Some s'
      /\ trace s' = trace s ++ [(0%nat, clearInterval)].
Proof.
  intros s.
  assert (R : reachable android30 s)
    by (apply reachable_state_after; discriminate).
  split; [exact R|].
  split; [eexists; repeat split; reflexivity|].
  destruct (poll_timers_released android30 s 0%nat _ R eq_refl)
    as (Hyes & Hdead & _ & _).
  split.
  - destruct (Hyes 0%nat eq_refl) as (s' & r' & Hs & _ & Hr' & Hi & Hd).
    exists s', r'. auto.
  - destruct (Hdead eq_refl) as (_ & s' & Hs & Ht & _).
    exists s'. auto.
Defined.

Lemma query_fault_is_not_yet_installed_witness :
  let s := state_after android30 checking_once in
  reachable android30 s
  /\ (exists r, runs s !! 0%nat = Some r /\ checking r = 1%nat)
  /\ exists s',
      step android30 (QuerySettled 0 (Rejected "unavailable"%string)) s
      = Some s'
      /\ workflow_state s' 0 = PollingForInstall
      /\ unhandled s' = [].
Proof.
  intros s.
  assert (R : reachable android30 s)
    by (apply reachable_state_after; discriminate).
  split; [exact R|].
  split; [eexists; split; reflexivity|].
  destruct (query_fault_is_not_yet_installed android30 s 0%nat _ 0%nat
              "unavailable"%string R eq_refl eq_refl)
    as (s' & s0 & r' & Hs & _ & _ & _ & _ & _ & _ & Hu & _ & _ & _ & _
        & Hw & _).
  exists s'. split; [exact Hs|]. split; [|exact Hu].
  rewrite Hw. reflexivity.
Defined.

Lemma launch_only_after_installed_witness :
  let s := state_after android30 answered_yes in
  reachable android30 s
  /\ (exists r, runs s !! 0%nat = Some r /\ launching r = 1%nat)
  /\ launches_follow_reports (own 0 (trace s))
  /\ exists s',
      step android30 (LaunchSettled 0 (Rejected "no activity"%string)) s
      = Some s'
      /\ workflow_state s' 0 = Installed.
Proof.
  intros s.
  assert (R : reachable android30 s)
    by (apply reachable_state_after; discriminate).
  split; [exact R|].
  split; [eexists; split; reflexivity|].
  destruct (launch_only_after_installed android30 s 0%nat _ R eq_refl)
    as (Hf & _ & Hl).
  split; [exact Hf|].
  destruct (Hl 0%nat "no activity"%string eq_refl)
    as (s' & Hs & _ & _ & _ & _ & Hw & _).
  exists s'. split; [exact Hs|]. rewrite Hw. reflexivity.
Defined.

End Witnesses.

(** * Further properties of [installGame] *)

Section Protocol.

Variable P : Platform.

Lemma history_shape_started item acts r' :
  Started P item acts r' -> history_shape P (calls_in acts) r'.
Proof.
  destruct 1 as [item E|item E]; unfold history_shape, gate_calls; simpl;
    rewrite E; auto.
Qed.

Lemma idle_of_history h r :
  history_ok h r -> stage r <> Returned Polling -> idle r.
Proof.
  unfold history_ok. intros H Hne.
  destruct (stage r) as [| | |[]]; try contradiction;
    first [exact H | exact (proj1 H)].
Qed.

Lemma history_shape_local e r acts r' h :
  Local P e r acts r' -> history_ok h r -> history_shape P h r ->
  history_shape P (h ++ calls_in acts) r'.
Proof.
  intros HL Hok. unfold history_shape.
  destruct HL as [ | | | | | | | |w r E|w r n E|w r n E|w r n e E|w r n u E
                 |w r n e E|w r E];
    simpl;
    repeat match goal with
           | H : stage _ = _ |- _ => rewrite H
           end; simpl.
  1-3: intros (Eg & ->); unfold gate_calls; rewrite ?Eg; simpl; auto.
  1-5: intros ->; rewrite <- ?app_assoc; simpl; auto.
  1: exists []; split; [reflexivity|constructor].
  all: destruct (stage r) as [| | |[]] eqn:St;
    try (exfalso;
         assert (Hi : idle r) by (apply (idle_of_history h); congruence);
         destruct Hi as (? & ? & ? & ? & ?); congruence).
  all: intros (poll & -> & HF); rewrite ?app_nil_r; try (exists poll; auto; fail).
  all: eexists (poll ++ _); rewrite <- !app_assoc;
    (split; [reflexivity|]); apply Forall_app; (split; [assumption|]);
    repeat (apply List.Forall_cons; [unfold is_poll_call; auto 6|]);
    apply List.Forall_nil.
Qed.

Lemma shape_invariant s :
  reachable P s ->
  forall w r, runs s !! w = Some r ->
    history_ok (own w (trace s)) r /\ history_shape P (own w (trace s)) r.
Proof.
  apply (runs_invariant P (fun h r => history_ok h r /\ history_shape P h r)).
  - intros item acts r' HS. split.
    + now apply (history_ok_started P item).
    + now apply history_shape_started with (item := item).
  - intros e r acts r' h HL [Hok Hsh]. split.
    + now apply (history_ok_local P e r).
    + now apply (history_shape_local e r).
Qed.

Lemma poll_calls_uncounted g what poll :
  (forall c, is_poll_call g c -> what c = false) ->
  Forall (is_poll_call g) poll -> count what poll = O.
Proof.
  intros Hw. induction 1 as [|c poll Hc _ IH]; simpl; [reflexivity|].
  now rewrite (Hw c Hc), IH.
Qed.

Ltac poll_uncounted :=
  match goal with
  | HF : Forall (is_poll_call ?g) ?poll |- context [count ?what ?poll] =>
      rewrite (poll_calls_uncounted g what poll);
      [|intros ? [->|[->|[->|[->| ->]]]]; reflexivity|exact HF]
  end.

(** X1: the calls of a run, in order: the permission prompt, exactly on
    the platforms that have one; the "downloading" alert and the download
    of the item's [apkUrl] to its [dest]; the handoff of that same path;
    the two timers; and from then on only calls of the polling callbacks.
    A run that has failed has a prefix of this, up to the call that
    failed it, and then its failure alert (after the error log, for a
    caught rejection). *)
Theorem run_calls_in_order (s : AppState) (w : nat) (r : Run) :
  reachable P s -> runs s !! w = Some r ->
  history_shape P (own w (trace s)) r.
Proof. intros Hreach Hr. now apply (shape_invariant s Hreach w r). Qed.

(** X2: there is no retry inside a run.  In every reachable state a run
    has prompted exactly as many times as the platform prompts (once or
    never), has downloaded at most once and raised the "downloading"
    alert as often, has handed off at most once and only after a
    download, has set its two timers at most once each and only after a
    handoff, and has raised a failure alert exactly when it is failed,
    once. *)
Theorem run_steps_at_most_once (s : AppState) (w : nat) (r : Run) :
  reachable P s -> runs s !! w = Some r ->
  let n what := calls what w (trace s) in
  n is_prompt = length (gate_calls P)
  /\ (n is_downloadFile <= 1)%nat
  /\ n is_alert_downloading = n is_downloadFile
  /\ (n is_actionViewIntent <= n is_downloadFile)%nat
  /\ (n is_setInterval <= n is_actionViewIntent)%nat
  /\ n is_setTimeout = n is_setInterval
  /\ n is_failure_alert
     = (if is_failed (workflow_state s w) then 1 else 0)%nat.
Proof.
  intros Hreach Hr n.
  destruct (shape_invariant s Hreach w r Hr) as [_ Hsh].
  assert (Hf : is_failed (workflow_state s w)
               = match stage r with
                 | Returned Polling => false
                 | Returned _ => true
                 | _ => false
                 end).
  { rewrite (workflow_state_lookup _ _ _ Hr).
    destruct (stage r) as [| | |[|c|e|]]; try reflexivity.
    destruct (launched r); [|reflexivity].
    destruct (calls _ _ _); [|reflexivity].
    destruct (deadline r); reflexivity. }
  rewrite Hf. unfold n, calls. clear Hf.
  unfold history_shape in Hsh.
  destruct (stage r) as [| | |[|c|e|]]; simpl;
    repeat match goal with
           | H : _ /\ _ |- _ => destruct H
           | H : _ \/ _ |- _ => destruct H
           | H : exists _, _ |- _ => destruct H
           end;
    match goal with H : own _ _ = _ |- _ => rewrite H end;
    unfold gate_calls in *;
    try match goal with
        | H : requestPermission_start P = _ |- _ => rewrite H
        end;
    try destruct (requestPermission_start P);
    rewrite ?count_app; simpl; repeat poll_uncounted;
    repeat split; try lia; try reflexivity.
Qed.

Lemma run_call_started item acts r' :
  Started P item acts r' -> Forall (run_call P (game r')) (calls_in acts).
Proof. destruct 1; simpl; repeat constructor. Qed.

Lemma run_call_local e r acts r' :
  Local P e r acts r' -> Forall (run_call P (game r)) (calls_in acts).
Proof. destruct 1; simpl; repeat constructor. Qed.

Lemma run_call_invariant s :
  reachable P s ->
  forall w r, runs s !! w = Some r ->
    Forall (run_call P (game r)) (own w (trace s)).
Proof.
  apply (runs_invariant P (fun h r => Forall (run_call P (game r)) h)).
  - apply run_call_started.
  - intros e r acts r' h HL Hh. rewrite (local_game P _ _ _ _ HL).
    apply Forall_app. split; [assumption|]. now apply run_call_local with e r'.
Qed.

(** X3: every call of a run is about the run's own item: the download is
    from the item's [apkUrl] to the path derived from its title, the
    installer is handed that same path with the package MIME type and the
    provider authority, the install queries and the launch name the
    item's [packageName], the alerts carry its title, the timers have the
    delays 2000 and 20000.  And the handoff, when there is one, comes
    right after the download in the calls of the run. *)
Theorem run_calls_name_its_item (s : AppState) (w : nat) (r : Run) :
  reachable P s -> runs s !! w = Some r ->
  Forall (run_call P (game r)) (own w (trace s))
  /\ (forall url file,
        In (RNFS_downloadFile url file) (own w (trace s)) ->
        url = apkUrl (game r)
        /\ file = Dest.dest (DownloadDirectoryPath P) (title (game r)))
  /\ (forall path mime auth,
        In (actionViewIntent path mime auth) (own w (trace s)) ->
        path = Dest.dest (DownloadDirectoryPath P) (title (game r))
        /\ mime = js "application/vnd.android.package-archive"
        /\ auth = js "com.mindsproutsapp.provider")
  /\ (forall pkg,
        In (isAppInstalled pkg) (own w (trace s))
        \/ In (startAppByPackageName pkg) (own w (trace s)) ->
        pkg = packageName (game r))
  /\ (calls is_actionViewIntent w (trace s) = 1%nat ->
      exists pre post,
        own w (trace s)
        = pre ++ RNFS_downloadFile (apkUrl (game r)) (dest_of P (game r))
              :: handoff_call P (game r) :: post).
Proof.
  intros Hreach Hr.
  pose proof (run_call_invariant s Hreach w r Hr) as Hall.
  split; [exact Hall|].
  rewrite List.Forall_forall in Hall.
  split; [|split; [|split]].
  - intros url file Hin. apply Hall in Hin. inversion Hin; auto.
  - intros path mime auth Hin. apply Hall in Hin.
    unfold handoff_call in Hin. inversion Hin; auto.
  - intros pkg [Hin|Hin]; apply Hall in Hin; inversion Hin; auto.
  - destruct (shape_invariant s Hreach w r Hr) as [_ Hsh].
    unfold calls. unfold history_shape in Hsh.
    destruct (stage r) as [| | |[|c|e|]]; simpl in Hsh;
      repeat match goal with
             | H : _ /\ _ |- _ => destruct H
             | H : _ \/ _ |- _ => destruct H
             | H : exists _, _ |- _ => destruct H
             end;
      match goal with H : own _ _ = _ |- _ => rewrite H end;
      try (unfold gate_calls;
           try match goal with
               | H : requestPermission_start P = _ |- _ => rewrite H
               end;
           try destruct (requestPermission_start P);
           rewrite ?count_app; simpl; discriminate);
      intros _;
      exists (gate_calls P ++ [Alert_alert (DownloadingAlert (title (game r)))]);
      eexists; rewrite <- !app_assoc; simpl; reflexivity.
Qed.

(** A run that has returned without starting the polling has nothing
    pending: no task can resume it. *)
Lemma exited_not_resumable e s w r x :
  runs s !! w = Some r -> stage r = Returned x -> x <> Polling -> idle r ->
  subject e = Some w -> step P e s = None.
Proof.
  intros Hr St Hx Hi Hsub.
  destruct (step P e s) as [s'|] eqn:Hs; [exfalso|reflexivity].
  apply step_inv in Hs
      as [(item & -> & _)
         |[(item & acts & r' & -> & _)
          |(w0 & r0 & acts & r' & Hsub0 & Hr0 & HL & _)]];
    try discriminate.
  assert (w0 = w) by congruence. subst w0.
  assert (r0 = r) by congruence. subst r0.
  eapply exited_no_transition; eauto.
Qed.

Lemma failed_stage s w r :
  runs s !! w = Some r -> is_failed (workflow_state s w) = true ->
  exists x, stage r = Returned x /\ x <> Polling.
Proof.
  intros Hr Hf. rewrite (workflow_state_lookup _ _ _ Hr) in Hf.
  destruct (stage r) as [| | |[|c|e|]]; try discriminate;
    try (eexists; split; [reflexivity|discriminate]).
  exfalso. destruct (launched r); [|discriminate].
  destruct (calls _ _ _); [|discriminate].
  destruct (deadline r); discriminate.
Qed.

(** X4: the rejection of any of the three calls [installGame] awaits (the
    permission request, the download, the handoff) ends in the [catch]
    block: the error is logged with [console.error], [downloadingGame] is
    cleared, the "could not install" alert is raised, and nothing is left
    unhandled.  The run is failed with that error and stays so; it makes
    no further call and has no timer. *)
Theorem installGame_catches (e : Event) (s : AppState) (w : nat) (r : Run)
    (err : Error) :
  reachable P s -> runs s !! w = Some r ->
  awaited_rejection e = Some (w, stage r, err) ->
  exists s',
    step P e s = Some s'
    /\ trace s'
       = trace s ++ [(w, console_error err); (w, Alert_alert InstallErrorAlert)]
    /\ downloadingGame s' = None
    /\ unhandled s' = []
    /\ forall es s'',
        exec P es s' = Some s'' ->
        workflow_state s'' w = Failed (InstallError err)
        /\ own w (trace s'') = own w (trace s')
        /\ exists r'', runs s'' !! w = Some r'' /\ live_timers r'' = O.
Proof.
  intros Hreach Hr He. pose proof (lookup_lt_Some _ _ _ Hr) as Hlt.
  destruct (shape_invariant s Hreach w r Hr) as [Hok _].
  assert (HL : Local P e r (report_error err) (goto (Returned (Caught err)) r)
               /\ subject e = Some w).
  { destruct e as [|w0 [|]|w0 [|]|w0 [|]| | | |]; try discriminate;
      simpl in He; injection He as -> St ->; (split; [|reflexivity]);
      now constructor. }
  destruct HL as [HL Hsub].
  assert (Hi : idle r).
  { apply (idle_of_history _ _ Hok).
    destruct e as [|w0 [|]|w0 [|]|w0 [|]| | | |]; try discriminate;
      simpl in He; injection He as _ St _; congruence. }
  eexists. split; [eapply step_resume; [exact Hsub|exact Hr|exact HL]|].
  set (s' := after w _ _ s).
  assert (Hr' : runs s' !! w = Some (goto (Returned (Caught err)) r))
    by (simpl; now rewrite list_lookup_insert_eq).
  split; [reflexivity|]. split; [reflexivity|].
  split; [simpl; now apply no_unhandled with (P := P)|].
  intros es s'' Hex.
  destruct (exited_run_is_final P es s' s'' w _ _ Hr' eq_refl
              ltac:(discriminate) Hi Hex) as [Hr'' Ho].
  split; [now rewrite (workflow_state_lookup _ _ _ Hr'')|].
  split; [exact Ho|].
  eexists. split; [exact Hr''|].
  destruct Hi as (Hi1 & Hi2 & _). unfold live_timers. simpl.
  now rewrite Hi1, Hi2.
Qed.

(** X5: a failed run is final, whatever failed it.  No task can resume
    it (its settlements and timers cannot occur), and along every
    sequence of tasks it stays in the same failed state, with the same
    calls and no timer: installing the item again takes a new press. *)
Theorem failed_run_is_final (s : AppState) (w : nat) (r : Run) :
  reachable P s -> runs s !! w = Some r ->
  is_failed (workflow_state s w) = true ->
  (forall e, subject e = Some w -> step P e s = None)
  /\ live_timers r = O
  /\ forall es s',
      exec P es s = Some s' ->
      runs s' !! w = Some r
      /\ workflow_state s' w = workflow_state s w
      /\ own w (trace s') = own w (trace s)
      /\ forall e, subject e = Some w -> step P e s' = None.
Proof.
  intros Hreach Hr Hf.
  destruct (failed_stage s w r Hr Hf) as (x & St & Hx).
  destruct (shape_invariant s Hreach w r Hr) as [Hok _].
  assert (Hi : idle r) by (apply (idle_of_history _ _ Hok); congruence).
  split; [intros e; now apply exited_not_resumable with (r := r) (x := x)|].
  split.
  { destruct Hi as (Hi1 & Hi2 & _). unfold live_timers.
    now rewrite Hi1, Hi2. }
  intros es s' Hex.
  destruct (exited_run_is_final P es s s' w r x Hr St Hx Hi Hex) as [Hr' Ho].
  split; [exact Hr'|]. split.
  - rewrite (workflow_state_lookup _ _ _ Hr'),
      (workflow_state_lookup _ _ _ Hr), St.
    destruct x; try reflexivity. contradiction.
  - split; [exact Ho|].
    intros e; now apply exited_not_resumable with (r := r) (x := x).
Qed.

Lemma local_forward e r acts r' :
  Local P e r acts r' ->
  (stage_rank (stage r) <= stage_rank (stage r'))%nat
  /\ (forall x, stage r = Returned x -> stage r' = Returned x).
Proof.
  destruct 1; simpl;
    repeat match goal with H : stage _ = _ |- _ => rewrite H end;
    simpl; split; auto; try lia; try discriminate.
Qed.

Lemma forward_step e s s' w r :
  step P e s = Some s' -> runs s !! w = Some r ->
  exists r', runs s' !! w = Some r' /\ game r' = game r
             /\ (stage_rank (stage r) <= stage_rank (stage r'))%nat
             /\ (forall x, stage r = Returned x -> stage r' = Returned x).
Proof.
  intros Hs Hr. pose proof (lookup_lt_Some _ _ _ Hr) as Hlt.
  apply step_inv in Hs
      as [(item & _ & _ & ->)
         |[(item & acts & r' & _ & _ & _ & ->)
          |(w0 & r0 & acts & r' & _ & Hr0 & HL & ->)]].
  - exists r. auto.
  - exists r. simpl. rewrite lookup_app_l by assumption. auto.
  - destruct (decide (w0 = w)) as [->|Hne].
    + assert (r0 = r) by congruence. subst r0.
      exists r'. simpl. rewrite list_lookup_insert_eq by assumption.
      destruct (local_forward _ _ _ _ HL).
      rewrite (local_game P _ _ _ _ HL). auto.
    + exists r. simpl. rewrite list_lookup_insert_ne by assumption. auto.
Qed.

(** X6: a run only moves forward.  Along every sequence of tasks a run
    stays in the list, stays a run of the same item, never returns to an
    earlier [await] (from the handoff it never goes back to the download,
    nor from the download to the permission), and once it has returned,
    the way it returned does not change. *)
Theorem run_never_goes_back (es : list Event) (s s' : AppState) (w : nat)
    (r : Run) :
  exec P es s = Some s' -> runs s !! w = Some r ->
  exists r',
    runs s' !! w = Some r' /\ game r' = game r
    /\ (stage_rank (stage r) <= stage_rank (stage r'))%nat
    /\ (forall x, stage r = Returned x -> stage r' = Returned x)
    /\ (length (runs s) <= length (runs s'))%nat.
Proof.
  revert s r. induction es as [|e es IH]; intros s r Hex Hr; simpl in Hex.
  - injection Hex as <-. exists r. auto.
  - destruct (step P e s) as [s1|] eqn:Hs; [|discriminate].
    destruct (forward_step _ _ _ _ _ Hs Hr) as (r1 & Hr1 & Hg1 & Hk1 & Hx1).
    destruct (IH s1 r1 Hex Hr1) as (r' & Hr' & Hg & Hk & Hx & Hlen).
    exists r'. split; [exact Hr'|]. split; [congruence|].
    split; [lia|]. split; [intros x Hst; apply (Hx x), (Hx1 x), Hst|].
    assert (length (runs s) <= length (runs s1))%nat; [|lia].
    clear - Hs. apply step_inv in Hs
      as [(item & _ & _ & ->)
         |[(item & acts & r' & _ & _ & _ & ->)
          |(w0 & r0 & acts & r' & _ & Hr0 & HL & ->)]]; simpl.
    + lia.
    + rewrite length_app. simpl. lia.
    + rewrite length_insert. lia.
Qed.


(** *** Calls and the tasks that cause them *)

Lemma calls_step what f w e s s' :
  (forall item acts r', Started P item acts r' ->
     count what (calls_in acts) = O) ->
  (forall e r acts r', Local P e r acts r' ->
     count what (calls_in acts) = f e) ->
  step P e s = Some s' ->
  calls what w (trace s') = (calls what w (trace s) + weight w f e)%nat.
Proof.
  intros HS0 HL0 Hs. unfold calls, weight.
  apply step_inv in Hs
      as [(item & -> & _ & ->)
         |[(item & acts & r' & -> & _ & HS & ->)
          |(w0 & r0 & acts & r' & Hsub & Hr0 & HL & ->)]]; simpl.
  - lia.
  - rewrite own_app, count_app.
    destruct (decide (length (runs s) = w)) as [->|Hne].
    + rewrite own_tagged, (HS0 _ _ _ HS). lia.
    + now rewrite own_tagged_other by assumption.
  - rewrite own_app, count_app, Hsub.
    destruct (Nat.eqb_spec w0 w) as [->|Hne].
    + now rewrite own_tagged, (HL0 _ _ _ _ HL).
    + now rewrite own_tagged_other by assumption.
Qed.

Lemma calls_exec what f w :
  (forall item acts r', Started P item acts r' ->
     count what (calls_in acts) = O) ->
  (forall e r acts r', Local P e r acts r' ->
     count what (calls_in acts) = f e) ->
  forall es s s',
    exec P es s = Some s' ->
    calls what w (trace s') = (calls what w (trace s) + tally w f es)%nat.
Proof.
  intros HS0 HL0 es. induction es as [|e es IH]; intros s s' Hex;
    simpl in Hex.
  - injection Hex as <-. simpl. lia.
  - destruct (step P e s) as [s1|] eqn:Hs; [|discriminate].
    rewrite (IH s1 s' Hex), (calls_step what f w e s s1 HS0 HL0 Hs).
    simpl. lia.
Qed.

Lemma tally_add w f g es :
  tally w (fun e => (f e + g e)%nat) es = (tally w f es + tally w g es)%nat.
Proof.
  induction es as [|e es IH]; simpl; [reflexivity|]. rewrite IH.
  unfold weight. destruct (subject e) as [w'|]; [|lia].
  destruct (w' =? w)%nat; lia.
Qed.

(** X8: the calls of the polling are counted by the tasks that cause
    them.  After any sequence of tasks from the start, a run has asked as
    many install queries as its interval has fired, has raised as many
    "installed" alerts and made as many launch calls as queries have
    answered [true] (more than one, if several queries in flight answer
    [true]), and has called [clearInterval] once for each of these
    answers and once for the deadline, which fires at most once. *)
Theorem polling_calls_counted (es : list Event) (s : AppState) (w : nat) :
  exec P es init = Some s ->
  calls is_isAppInstalled w (trace s) = tally w fires_interval es
  /\ calls is_alert_installed w (trace s) = tally w answers_true es
  /\ calls is_startApp w (trace s) = tally w answers_true es
  /\ calls is_clearInterval w (trace s)
     = (tally w answers_true es + tally w fires_deadline es)%nat
  /\ (tally w fires_deadline es <= 1)%nat.
Proof.
  intros Hex.
  assert (Hq : calls is_isAppInstalled w (trace s) = tally w fires_interval es).
  { rewrite (calls_exec is_isAppInstalled fires_interval w) with (s := init)
      (es := es); auto; now destruct 1. }
  assert (Ha : calls is_alert_installed w (trace s) = tally w answers_true es).
  { rewrite (calls_exec is_alert_installed answers_true w) with (s := init)
      (es := es); auto; now destruct 1. }
  assert (Hl : calls is_startApp w (trace s) = tally w answers_true es).
  { rewrite (calls_exec is_startApp answers_true w) with (s := init)
      (es := es); auto; now destruct 1. }
  assert (Hc : calls is_clearInterval w (trace s)
               = (tally w answers_true es + tally w fires_deadline es)%nat).
  { rewrite <- tally_add.
    rewrite (calls_exec is_clearInterval
               (fun e => (answers_true e + fires_deadline e)%nat) w)
      with (s := init) (es := es); auto; now destruct 1. }
  repeat (split; [assumption|]).
  assert (Hreach : reachable P s) by (now exists es).
  assert (calls is_clearInterval w (trace s)
          <= calls is_alert_installed w (trace s) + 1)%nat; [|lia].
  destruct (runs s !! w) as [r|] eqn:Hr.
  - destruct (shape_invariant s Hreach w r Hr) as [Hok Hsh].
    unfold history_ok in Hok. unfold history_shape in Hsh. unfold calls.
    destruct (stage r) as [| | |[|c|e|]];
      try (destruct Hok as (_ & Hok); intuition lia).
    + destruct Hsh as (_ & ->). simpl. lia.
    + destruct Hsh as (_ & ->).
      unfold gate_calls. destruct (requestPermission_start P); simpl; lia.
    + destruct Hsh as [(_ & ->)|[->| ->]];
        unfold gate_calls; destruct (requestPermission_start P); simpl; lia.
    + destruct Hok as (-> & _). destruct (deadline r); lia.
  - unfold calls. rewrite (own_fresh P s Hreach w); [simpl; lia|].
    now apply lookup_ge_None.
Qed.

(** *** After a positive answer *)

Lemma count_app_le what h a : (count what h <= count what (h ++ a))%nat.
Proof. rewrite count_app. lia. Qed.

Lemma reported_step w k e s s' :
  reported w k s -> step P e s = Some s' -> reported w k s'.
Proof.
  intros (Hk & Ha & r & Hr & St & Hi) Hs.
  pose proof (lookup_lt_Some _ _ _ Hr) as Hlt. unfold reported, calls in *.
  apply step_inv in Hs
      as [(item & _ & _ & ->)
         |[(item & acts & r' & _ & _ & HS & ->)
          |(w0 & r0 & acts & r' & Hsub & Hr0 & HL & ->)]]; eauto 10.
  - simpl. rewrite own_app, own_tagged_other, app_nil_r by lia.
    split; [assumption|]. split; [assumption|].
    exists r. now rewrite lookup_app_l.
  - simpl. rewrite own_app.
    destruct (decide (w0 = w)) as [->|Hne].
    + assert (r0 = r) by congruence. subst r0.
      rewrite own_tagged, !count_app, list_lookup_insert_eq by assumption.
      destruct HL; simpl in *; try congruence;
        (split; [lia|]); (split; [lia|]);
        eexists; (split; [reflexivity|]); auto.
    + rewrite own_tagged_other, app_nil_r by assumption.
      split; [assumption|]. split; [assumption|].
      exists r. now rewrite list_lookup_insert_ne.
Qed.

Lemma reported_state w k s :
  reported w k s ->
  workflow_state s w = Installed \/ workflow_state s w = Launched.
Proof.
  intros (_ & Ha & r & Hr & St & _).
  rewrite (workflow_state_lookup _ _ _ Hr), St.
  destruct (launched r); [|auto].
  destruct (calls is_alert_installed w (trace s)); [lia|auto].
Qed.

(** X9: a positive answer ends the polling for good.  After an install
    query of a run has answered [true], along every sequence of tasks the
    interval of the run cannot fire, the run asks no further install
    query, and it is installed or launched: it neither times out nor
    fails, also when the deadline fires later. *)
Theorem positive_answer_ends_polling (s : AppState) (w : nat) (r : Run)
    (n : nat) :
  reachable P s -> runs s !! w = Some r -> checking r = S n ->
  exists s',
    step P (QuerySettled w (Fulfilled true)) s = Some s'
    /\ forall es s'',
        exec P es s' = Some s'' ->
        step P (IntervalFires w) s'' = None
        /\ calls is_isAppInstalled w (trace s'')
           = calls is_isAppInstalled w (trace s)
        /\ (workflow_state s'' w = Installed
            \/ workflow_state s'' w = Launched).
Proof.
  intros Hreach Hr Hn. pose proof (lookup_lt_Some _ _ _ Hr) as Hlt.
  assert (St : stage r = Returned Polling)
    by (apply (polling_of_timer P s w r Hreach Hr); rewrite Hn; auto).
  pose proof (L_installed P w r n Hn) as HL.
  eexists. split; [eapply step_resume; [|exact Hr|exact HL]; reflexivity|].
  set (s' := after w _ _ s).
  intros es s'' Hex.
  assert (Hrep : reported w (calls is_isAppInstalled w (trace s)) s'').
  { refine (exec_preserves P (reported w _) _ es s' s'' _ Hex).
    - intros e0 s0 s1. apply reported_step.
    - unfold reported, calls, s'. rewrite own_after, !count_app. simpl.
      split; [lia|]. split; [lia|]. eexists.
      rewrite list_lookup_insert_eq by assumption.
      split; [reflexivity|]. auto. }
  split; [|split; [apply Hrep|now apply reported_state with (k := calls is_isAppInstalled w (trace s))]].
  destruct Hrep as (_ & _ & r'' & Hr'' & _ & Hi'').
  simpl. unfold on_run. rewrite Hr''. simpl. now rewrite Hi''.
Qed.

Lemma has_launched_step w e s s' :
  has_launched w s -> step P e s = Some s' -> has_launched w s'.
Proof.
  intros (r & Hr & St & Hl) Hs.
  pose proof (lookup_lt_Some _ _ _ Hr) as Hlt. unfold has_launched.
  apply step_inv in Hs
      as [(item & _ & _ & ->)
         |[(item & acts & r' & _ & _ & HS & ->)
          |(w0 & r0 & acts & r' & Hsub & Hr0 & HL & ->)]]; eauto.
  - exists r. simpl. now rewrite lookup_app_l.
  - destruct (decide (w0 = w)) as [->|Hne].
    + assert (r0 = r) by congruence. subst r0.
      exists r'. simpl. rewrite list_lookup_insert_eq by assumption.
      split; [reflexivity|].
      destruct HL; simpl in *; try congruence; split; auto; lia.
    + exists r. simpl. now rewrite list_lookup_insert_ne.
Qed.

(** X10: when the launch call of a run returns normally, the run is
    launched, and it stays launched along every sequence of tasks; the
    task itself makes no call and does not write [downloadingGame]. *)
Theorem launch_return_is_launched (s : AppState) (w : nat) (r : Run)
    (n : nat) (u : unit) :
  reachable P s -> runs s !! w = Some r -> launching r = S n ->
  exists s',
    step P (LaunchSettled w (Fulfilled u)) s = Some s'
    /\ trace s' = trace s
    /\ downloadingGame s' = downloadingGame s
    /\ forall es s'',
        exec P es s' = Some s'' -> workflow_state s'' w = Launched.
Proof.
  intros Hreach Hr Hn. pose proof (lookup_lt_Some _ _ _ Hr) as Hlt.
  assert (St : stage r = Returned Polling)
    by (apply (polling_of_timer P s w r Hreach Hr); rewrite Hn; auto 6).
  pose proof (L_launched P w r n u Hn) as HL.
  eexists. split; [eapply step_resume; [|exact Hr|exact HL]; reflexivity|].
  set (s' := after w _ _ s).
  split; [simpl; apply app_nil_r|]. split; [reflexivity|].
  intros es s'' Hex.
  assert (Hl : has_launched w s'').
  { refine (exec_preserves P (has_launched w) _ es s' s'' _ Hex).
    - intros e0 s0 s1. apply has_launched_step.
    - eexists. simpl. rewrite list_lookup_insert_eq by assumption.
      split; [reflexivity|]. simpl. split; [assumption|lia]. }
  destruct Hl as (r'' & Hr'' & St'' & Hl).
  rewrite (workflow_state_lookup _ _ _ Hr''), St''.
  destruct (launched r''); [lia|reflexivity].
Qed.

(** *** While the polling goes on *)

Lemma interval_ok_local e r acts r' h :
  Local P e r acts r' -> history_ok h r -> interval_ok h r ->
  interval_ok (h ++ calls_in acts) r'.
Proof.
  intros HL Hok. unfold interval_ok.
  destruct HL; simpl; rewrite ?count_app; simpl; rewrite ?Nat.add_0_r;
    try discriminate; auto.
  - intros _ _. unfold history_ok in Hok. rewrite H in Hok.
    destruct Hok as (_ & _ & -> & _). reflexivity.
  - intros _ _. rewrite Nat.add_1_r. now rewrite andb_false_r.
Qed.

Lemma interval_invariant s :
  reachable P s ->
  forall w r, runs s !! w = Some r ->
    history_ok (own w (trace s)) r /\ interval_ok (own w (trace s)) r.
Proof.
  apply (runs_invariant P (fun h r => history_ok h r /\ interval_ok h r)).
  - intros item acts r' HS. split.
    + now apply (history_ok_started P item).
    + destruct HS; discriminate.
  - intros e r acts r' h HL [Hok Hi]. split.
    + now apply (history_ok_local P e r).
    + now apply (interval_ok_local e r).
Qed.

Lemma polling_state s w :
  reachable P s -> workflow_state s w = PollingForInstall ->
  still_polling w (calls is_alert w (trace s)) s.
Proof.
  intros Hreach Hw. unfold workflow_state in Hw.
  destruct (runs s !! w) as [r|] eqn:Hr; [|discriminate].
  destruct (interval_invariant s Hreach w r Hr) as [Hok Hi].
  unfold history_ok in Hok. unfold interval_ok in Hi.
  destruct (stage r) as [| | |[|c|e|]] eqn:St; try discriminate.
  destruct (launched r) eqn:El; [|discriminate].
  destruct (calls is_alert_installed w (trace s)) eqn:Ea; [|discriminate].
  destruct (deadline r) eqn:Ed; [|discriminate].
  unfold calls in Ea. rewrite Ea in Hok, Hi.
  destruct Hok as (_ & Hl & _).
  split; [reflexivity|]. split; [exact Ea|].
  exists r. split; [exact Hr|]. split; [exact St|].
  split; [now apply Hi|]. split; [exact Ed|]. split; [lia|exact El].
Qed.

Lemma still_polling_step w a e s s' :
  keeps_polling w e -> still_polling w a s -> step P e s = Some s' ->
  still_polling w a s'.
Proof.
  intros [Hk1 Hk2] (Ha & Hrep & r & Hr & St & Hi & Hd & Hl1 & Hl2) Hs.
  pose proof (lookup_lt_Some _ _ _ Hr) as Hlt.
  unfold still_polling, calls in *.
  apply step_inv in Hs
      as [(item & _ & _ & ->)
         |[(item & acts & r' & _ & _ & HS & ->)
          |(w0 & r0 & acts & r' & Hsub & Hr0 & HL & ->)]]; eauto 12.
  - simpl. rewrite own_app, own_tagged_other, app_nil_r by lia.
    repeat (split; [assumption|]). exists r. now rewrite lookup_app_l.
  - simpl. rewrite own_app.
    destruct (decide (w0 = w)) as [->|Hne].
    + assert (r0 = r) by congruence. subst r0.
      rewrite own_tagged, !count_app, list_lookup_insert_eq by assumption.
      destruct HL; simpl in *; try congruence;
        repeat (split; [lia|]); eexists; (split; [reflexivity|]);
        simpl; auto.
    + rewrite own_tagged_other, app_nil_r by assumption.
      repeat (split; [assumption|]).
      exists r. now rewrite list_lookup_insert_ne.
Qed.

(** X22: the polling goes on until a positive answer or the deadline.
    While a run is polling its interval can fire; and along every
    sequence of tasks that holds neither a positive answer of its install
    query nor its deadline (ticks, negative answers, faults of the query,
    tasks of other runs, presses) it stays polling with both timers set
    and raises no alert. *)
Theorem polling_goes_on (s : AppState) (w : nat) :
  reachable P s -> workflow_state s w = PollingForInstall ->
  (exists s1, step P (IntervalFires w) s = Some s1)
  /\ forall es s',
      Forall (keeps_polling w) es -> exec P es s = Some s' ->
      workflow_state s' w = PollingForInstall
      /\ calls is_alert w (trace s') = calls is_alert w (trace s)
      /\ exists r', runs s' !! w = Some r' /\ live_timers r' = 2%nat.
Proof.
  intros Hreach Hw.
  pose proof (polling_state s w Hreach Hw) as Hp. split.
  - destruct Hp as (_ & _ & r & Hr & _ & Hi & _).
    eexists. eapply step_resume; [|exact Hr|apply L_check; exact Hi].
    reflexivity.
  - intros es s' Hok Hex.
    assert (Hp' : still_polling w (calls is_alert w (trace s)) s').
    { refine (exec_preserves_if P (keeps_polling w) (still_polling w _) _
                es s s' Hok Hp Hex).
      intros e0 s0 s1. apply still_polling_step. }
    destruct Hp' as (Ha & Hrep & r' & Hr' & St & Hi & Hd & _ & Hl).
    split.
    + now rewrite (workflow_state_lookup _ _ _ Hr'), St, Hl, Hrep, Hd.
    + split; [exact Ha|]. exists r'. split; [exact Hr'|].
      unfold live_timers. now rewrite Hi, Hd.
Qed.

(** X23: a late answer installs after the time-out.  If the deadline has
    fired while an install query was still in flight and that query then
    answers [true], the timed-out run becomes installed: the callback
    calls [clearInterval] (for the second time), raises the "installed"
    alert and calls the launch. *)
Theorem late_answer_installs (s : AppState) (w : nat) (r : Run) (n : nat) :
  reachable P s -> runs s !! w = Some r -> checking r = S n ->
  workflow_state s w = TimedOut ->
  exists s',
    step P (QuerySettled w (Fulfilled true)) s = Some s'
    /\ workflow_state s' w = Installed
    /\ calls is_clearInterval w (trace s') = 2%nat
    /\ calls is_alert_installed w (trace s') = 1%nat
    /\ calls is_startApp w (trace s') = S (calls is_startApp w (trace s)).
Proof.
  intros Hreach Hr Hn Hw. pose proof (lookup_lt_Some _ _ _ Hr) as Hlt.
  pose proof (history_invariant P s Hreach w r Hr) as Hok.
  rewrite (workflow_state_lookup _ _ _ Hr) in Hw.
  unfold history_ok in Hok.
  destruct (stage r) as [| | |[|c|e|]] eqn:St; try discriminate.
  destruct (launched r) eqn:El; [|discriminate].
  destruct (calls is_alert_installed w (trace s)) eqn:Ea; [|discriminate].
  destruct (deadline r) eqn:Ed; [discriminate|].
  unfold calls in Ea. rewrite Ea in Hok. destruct Hok as (Hc & _).
  pose proof (L_installed P w r n Hn) as HL.
  eexists. split; [eapply step_resume; [|exact Hr|exact HL]; reflexivity|].
  set (s' := after w _ _ s).
  assert (Ho : own w (trace s')
               = own w (trace s) ++ calls_in (report_installed r))
    by apply own_after.
  assert (Hr' : runs s' !! w
                = Some (with_timers false (deadline r)
                          (with_callbacks n (S (launching r)) (launched r) r)))
    by (simpl; now rewrite list_lookup_insert_eq).
  rewrite (workflow_state_lookup _ _ _ Hr'). unfold calls.
  rewrite Ho, !count_app, Ea, Hc. simpl. rewrite St, El.
  repeat split; lia.
Qed.

(** *** A press *)

Lemma started_complete item acts r' :
  Started P item acts r' ->
  installGame_start P (new_run item) = (acts, Fulfilled r').
Proof. destruct 1 as [i E|i E]; unfold installGame_start; now rewrite E. Qed.

Lemma step_press s item acts r' :
  disabled s item = false -> Started P item acts r' ->
  step P (Press item) s
  = Some (after (length (runs s)) acts (runs s ++ [r']) s).
Proof.
  intros D HS. simpl.
  rewrite D, (started_complete _ _ _ HS), resume_after.
  unfold after; simpl. do 2 f_equal.
  rewrite insert_app_r_alt, Nat.sub_diag by reflexivity. reflexivity.
Qed.

Lemma workflow_state_new s w acts r' :
  w = length (runs s) ->
  workflow_state (after w acts (runs s ++ [r']) s) w
  = match stage r' with
    | AtPermission => AwaitingPermission
    | AtDownload => Downloading
    | _ => workflow_state (after w acts (runs s ++ [r']) s) w
    end.
Proof.
  intros ->. unfold workflow_state at 1. simpl.
  rewrite lookup_app_r, Nat.sub_diag by reflexivity. simpl.
  destruct (stage r') eqn:St; try reflexivity;
    unfold workflow_state; simpl;
    rewrite lookup_app_r, Nat.sub_diag by reflexivity; simpl;
    now rewrite St.
Qed.

(** X11: what a press on an enabled button does, by platform.  Where no
    consent is needed the download starts in the same task: the item's
    identifier is written to [downloadingGame], the "downloading" alert
    is raised, the download is called, and the button is disabled at
    once, so a second press does nothing.  On Android below 29 the press
    only opens the permission prompt: [downloadingGame] is not written,
    the button stays enabled, and a second press opens a second prompt
    for a second run. *)
Theorem press_outcome_by_platform (s : AppState) (item : Game) :
  disabled s item = false ->
  (OS P <> android \/ 29 <= Version P ->
   exists s',
     step P (Press item) s = Some s'
     /\ trace s'
        = trace s
          ++ [(length (runs s), Alert_alert (DownloadingAlert (title item)));
              (length (runs s),
               RNFS_downloadFile (apkUrl item) (dest_of P item))]
     /\ downloadingGame s' = Some (id item)
     /\ workflow_state s' (length (runs s)) = Downloading
     /\ step P (Press item) s' = Some s')
  /\ (OS P = android /\ Version P < 29 ->
      exists s' s'',
        step P (Press item) s = Some s'
        /\ trace s' = trace s ++ [(length (runs s), PermissionsAndroid_request)]
        /\ downloadingGame s' = downloadingGame s
        /\ workflow_state s' (length (runs s)) = AwaitingPermission
        /\ step P (Press item) s' = Some s''
        /\ trace s''
           = trace s' ++ [(S (length (runs s)), PermissionsAndroid_request)]
        /\ workflow_state s'' (length (runs s)) = AwaitingPermission
        /\ workflow_state s'' (S (length (runs s))) = AwaitingPermission).
Proof.
  intros D. split.
  - intros Hp.
    assert (E : requestPermission_start P = GateReturns true).
    { destruct (requestPermission_start_cases P) as [(_ & Ho & Hv)|(E & _)];
        [|exact E]. destruct Hp; [contradiction|lia]. }
    pose proof (S_direct P item E) as HS.
    eexists. split; [apply (step_press s item _ _ D HS)|].
    split; [reflexivity|]. split; [reflexivity|].
    split; [now rewrite workflow_state_new|].
    simpl. unfold disabled. simpl. now rewrite Z.eqb_refl.
  - intros (Ho & Hv).
    assert (E : requestPermission_start P = GatePrompts).
    { destruct (requestPermission_start_cases P) as [(E & _)|(_ & Hp)];
        [exact E|]. destruct Hp; [contradiction|lia]. }
    pose proof (S_prompt P item E) as HS.
    set (s' := after (length (runs s)) [Do PermissionsAndroid_request]
                 (runs s ++ [goto AtPermission (new_run item)]) s).
    assert (D' : disabled s' item = false) by exact D.
    assert (Hlen : length (runs s') = S (length (runs s)))
      by (simpl; rewrite length_app; simpl; lia).
    exists s'. eexists.
    split; [apply (step_press s item _ _ D HS)|].
    split; [reflexivity|]. split; [reflexivity|].
    split; [unfold s'; now rewrite workflow_state_new|].
    split; [apply (step_press s' item _ _ D' HS)|].
    split; [simpl; rewrite length_app; simpl; now rewrite Nat.add_1_r|].
    split.
    + unfold workflow_state. simpl.
      rewrite lookup_app_l
        by (rewrite length_app; simpl; lia).
      rewrite lookup_app_r, Nat.sub_diag by reflexivity. reflexivity.
    + rewrite <- Hlen. now rewrite workflow_state_new.
Qed.

(** X12: no rejection escapes.  Every piece of [installGame] and of its
    callbacks ends normally, whatever the awaited call did: each is one
    [try] whose handler only logs, clears and alerts.  So no task adds an
    unhandled rejection, and none exists after any sequence of tasks. *)
Theorem no_rejection_escapes (es : list Event) (s s' : AppState) :
  exec P es s = Some s' ->
  unhandled s' = unhandled s
  /\ (forall e r piece,
        continuation P e r = Some piece ->
        exists r', snd piece = Fulfilled r')
  /\ (forall item,
        exists r', snd (installGame_start P (new_run item)) = Fulfilled r').
Proof.
  intros Hex. split; [|split].
  - revert s Hex. induction es as [|e es IH]; intros s Hex; simpl in Hex.
    + now injection Hex as <-.
    + destruct (step P e s) as [s1|] eqn:Hs; [|discriminate].
      rewrite (IH s1 Hex). now apply no_unhandled_step with (P := P) (e := e).
  - apply continuation_completes.
  - intros item. destruct (started_sound P item) as (acts & r' & E & _).
    exists r'. now rewrite E.
Qed.

End Protocol.

(** * Further properties of the destination path *)

Section DestinationFacts.

Import Dest.

Lemma underscore_not_alnum : is_alnum underscore = false.
Proof. reflexivity. Qed.

Lemma replaced_fixed c :
  (if is_alnum (if is_alnum c then c else underscore)
   then (if is_alnum c then c else underscore) else underscore)
  = (if is_alnum c then c else underscore).
Proof. destruct (is_alnum c) eqn:E; [now rewrite E|reflexivity]. Qed.

Lemma replace_clean t : forallb is_alnum t = true -> replace_non_alnum t = t.
Proof.
  induction t as [|c t IH]; simpl; [reflexivity|].
  intros H. apply andb_prop in H as [Hc Ht]. now rewrite Hc, IH.
Qed.

Lemma file_name_stem t : file_name t = replace_non_alnum t ++ extension.
Proof.
  unfold file_name.
  now rewrite (DestFacts.trim_words _ (DestFacts.replace_all_words t)).
Qed.

Lemma dest_eq_iff dir t1 t2 :
  dest dir t1 = dest dir t2 <-> replace_non_alnum t1 = replace_non_alnum t2.
Proof.
  unfold dest. rewrite !file_name_stem. split.
  - intros H. apply app_inv_head in H. apply app_inv_head in H.
    now apply app_inv_tail in H.
  - now intros ->.
Qed.

(** X13: a title made of letters and digits only is kept as it is: its
    file name is the title followed by [.apk], so two such titles never
    share a destination.  The replacement of line 53 applied to its own
    result changes nothing. *)
Theorem clean_titles_keep_their_name (t : jsstring) :
  replace_non_alnum (replace_non_alnum t) = replace_non_alnum t
  /\ (forallb is_alnum t = true -> file_name t = t ++ js ".apk")
  /\ (forall dir t',
        forallb is_alnum t = true -> forallb is_alnum t' = true ->
        dest dir t = dest dir t' -> t = t').
Proof.
  split; [|split].
  - unfold replace_non_alnum. rewrite map_map.
    apply map_ext. intros c. apply replaced_fixed.
  - intros H. now rewrite file_name_stem, (replace_clean t H).
  - intros dir t' H H' E. apply dest_eq_iff in E.
    now rewrite (replace_clean t H), (replace_clean t' H') in E.
Qed.

Lemma replaced_eq_iff a b :
  (if is_alnum a then a else underscore)
  = (if is_alnum b then b else underscore)
  <-> same_slot a b.
Proof.
  unfold same_slot.
  destruct (is_alnum a) eqn:Ea, (is_alnum b) eqn:Eb; split; auto.
  - intros [->|[? _]]; [reflexivity|discriminate].
  - intros ->. now rewrite underscore_not_alnum in Ea.
  - intros [->|[H _]]; [congruence|discriminate].
  - intros <-. now rewrite underscore_not_alnum in Eb.
  - intros [->|[_ H]]; [congruence|discriminate].
Qed.

(** X14: which titles collide.  Two titles get the same destination
    exactly when they have the same length and, place by place, either
    the same code unit or two code units outside [A-Za-z0-9]: the second
    download then overwrites the file of the first. *)
Theorem titles_collide_iff (dir t1 t2 : jsstring) :
  dest dir t1 = dest dir t2 <-> List.Forall2 same_slot t1 t2.
Proof.
  rewrite dest_eq_iff. unfold replace_non_alnum. revert t2.
  induction t1 as [|a t1 IH]; intros [|b t2]; simpl.
  - split; [constructor|reflexivity].
  - split; [discriminate|intros H; inversion H].
  - split; [discriminate|intros H; inversion H].
  - split.
    + intros [= Hab Ht]. constructor; [now apply replaced_eq_iff|].
      now apply IH.
    + intros H. inversion H; subst. f_equal; [now apply replaced_eq_iff|].
      now apply IH.
Qed.

Lemma occurrences_app c s1 s2 :
  occurrences c (s1 ++ s2) = (occurrences c s1 + occurrences c s2)%nat.
Proof. induction s1 as [|a s1 IH]; simpl; [reflexivity|]. rewrite IH. lia. Qed.

Lemma occurrences_words c s :
  is_word c = false -> forallb is_word s = true -> occurrences c s = O.
Proof.
  intros Hc. induction s as [|a s IH]; simpl; [reflexivity|].
  intros H. apply andb_prop in H as [Ha Hs]. rewrite (IH Hs).
  destruct (N.eqb_spec a c) as [->|_]; [congruence|reflexivity].
Qed.

(** X15: the destination is always a file directly inside the download
    directory.  Whatever the title, the file name holds no slash and no
    backslash, and its only dot is the one of [.apk]: a title cannot
    name a directory or a parent directory.  It is never empty: an empty
    title gives [.apk]. *)
Theorem file_name_has_no_path (t : jsstring) :
  occurrences slash (file_name t) = O
  /\ occurrences backslash (file_name t) = O
  /\ occurrences dot (file_name t) = 1%nat
  /\ length (file_name t) = (length t + 4)%nat
  /\ (t = [] -> file_name t = js ".apk").
Proof.
  rewrite file_name_stem.
  pose proof (DestFacts.replace_all_words t) as W.
  rewrite !occurrences_app.
  rewrite (occurrences_words slash _ eq_refl W),
    (occurrences_words backslash _ eq_refl W),
    (occurrences_words dot _ eq_refl W).
  repeat split.
  - rewrite length_app. unfold replace_non_alnum. rewrite length_map.
    reflexivity.
  - now intros ->.
Qed.

End DestinationFacts.

(** * The component [App] *)

Section AppFacts.

Variable P : Platform.
Variable games : list Game.

Lemma ui_exec_app evs1 evs2 ui :
  ui_exec P games (evs1 ++ evs2) ui
  = match ui_exec P games evs1 ui with
    | Some ui' => ui_exec P games evs2 ui'
    | None => None
    end.
Proof.
  revert ui. induction evs1 as [|ev evs1 IH]; intros ui; simpl;
    [reflexivity|].
  destruct (ui_step P games ev ui); [apply IH|reflexivity].
Qed.

Lemma ui_reachable_ind (Q : AppUI -> Prop) :
  Q mounted ->
  (forall ev ui ui',
      ui_reachable P games ui -> Q ui ->
      ui_step P games ev ui = Some ui' -> Q ui') ->
  forall ui, ui_reachable P games ui -> Q ui.
Proof.
  intros Hinit Hstep ui [evs Hevs]. revert ui Hevs.
  induction evs as [|ev evs IH] using rev_ind; intros ui Hevs.
  - simpl in Hevs. now injection Hevs as <-.
  - rewrite ui_exec_app in Hevs.
    destruct (ui_exec P games evs mounted) as [ui0|] eqn:E0; [|discriminate].
    simpl in Hevs.
    destruct (ui_step P games ev ui0) as [ui1|] eqn:E1; [|discriminate].
    injection Hevs as <-.
    apply (Hstep ev ui0 ui1); auto. now exists evs.
Qed.

Lemma ui_exec_preserves (Q : AppUI -> Prop) :
  (forall ev ui ui', Q ui -> ui_step P games ev ui = Some ui' -> Q ui') ->
  forall evs ui ui', Q ui -> ui_exec P games evs ui = Some ui' -> Q ui'.
Proof.
  intros Hstep evs. induction evs as [|ev evs IH]; intros ui ui' HQ H;
    simpl in H.
  - now injection H as <-.
  - destruct (ui_step P games ev ui) as [ui1|] eqn:E; [|discriminate]. eauto.
Qed.

(** What an event of the component amounts to for the workflows. *)
Lemma ui_step_inv ev ui ui' :
  ui_step P games ev ui = Some ui' ->
  (ev = SplashTimerFires /\ splashTimer ui = true
   /\ ui' = {| showSplash := false; splashTimer := false; core := core ui |})
  \/ (exists k item s',
         ev = Tap k /\ showSplash ui = false /\ games !! k = Some item
         /\ step P (Press item) (core ui) = Some s'
         /\ ui' = with_core ui s')
  \/ (exists e w s',
         ev = Background e /\ subject e = Some w
         /\ step P e (core ui) = Some s'
         /\ ui' = with_core ui s').
Proof.
  destruct ev as [k| |e]; simpl.
  - unfold render. destruct (showSplash ui) eqn:Sp; [discriminate|].
    rewrite list_lookup_fmap.
    destruct (games !! k) as [item|] eqn:Hk; simpl; [|discriminate].
    intros H. right; left. exists k, item.
    destruct (disabled (core ui) item) eqn:D.
    + injection H as <-. exists (core ui). repeat split; auto.
      now destruct ui.
    + simpl in H. injection H as <-. eexists. repeat split; auto.
  - destruct (splashTimer ui); [|discriminate].
    intros [= <-]. left. auto.
  - intros H. right; right.
    destruct e; try discriminate;
      (destruct (step P _ (core ui)) as [s'|] eqn:E; [|discriminate]);
      simpl in H; injection H as <-; eexists _, _, s';
      (split; [reflexivity|]); (split; [reflexivity|]); simpl; auto.
Qed.

Lemma ui_core_reachable ui :
  ui_reachable P games ui -> reachable P (core ui).
Proof.
  revert ui. apply ui_reachable_ind; [apply reachable_init|].
  intros ev ui ui' _ IH Hs.
  apply ui_step_inv in Hs
      as [(_ & _ & ->)|[(k & item & s' & _ & _ & _ & Hs & ->)
                       |(e & w & s' & _ & _ & Hs & ->)]]; auto;
    now apply (reachable_step P _ _ _ IH Hs).
Qed.

Lemma splash_timer_pending ui :
  ui_reachable P games ui -> splashTimer ui = showSplash ui.
Proof.
  revert ui. apply ui_reachable_ind; [reflexivity|].
  intros ev ui ui' _ IH Hs.
  apply ui_step_inv in Hs
      as [(_ & _ & ->)|[(k & item & s' & _ & _ & _ & _ & ->)
                       |(e & w & s' & _ & _ & _ & ->)]]; auto.
Qed.

Lemma nothing_before_first_press e w :
  subject e = Some w -> step P e init = None.
Proof. destruct e; simpl; intros [= <-]; reflexivity. Qed.

Lemma splash_is_mounted ui :
  ui_reachable P games ui -> showSplash ui = true -> ui = mounted.
Proof.
  revert ui. apply (ui_reachable_ind (fun ui => _ -> _)); [reflexivity|].
  intros ev ui ui' _ IH Hs Hsp.
  apply ui_step_inv in Hs
      as [(_ & _ & ->)|[(k & item & s' & _ & Hf & _ & _ & ->)
                       |(e & w & s' & _ & Hsub & Hs & ->)]].
  - discriminate.
  - simpl in Hsp. congruence.
  - simpl in Hsp. rewrite (IH Hsp) in Hs. simpl in Hs.
    now rewrite (nothing_before_first_press e w Hsub) in Hs.
Qed.

(** X16: nothing can be installed while the splash screen is shown.  As
    long as [showSplash] is [true] the component is in its initial state:
    no run exists and no call has been made; the screen is the splash
    screen, which has no button; and the only event that can occur is
    the firing of the splash timer. *)
Theorem splash_blocks_install (ui : AppUI) :
  ui_reachable P games ui -> showSplash ui = true ->
  ui = mounted
  /\ render games ui = SplashScreen
  /\ runs (core ui) = [] /\ trace (core ui) = []
  /\ forall ev ui', ui_step P games ev ui = Some ui' ->
       ev = SplashTimerFires /\ showSplash ui' = false.
Proof.
  intros Hreach Hsp.
  pose proof (splash_is_mounted ui Hreach Hsp) as ->.
  repeat split; auto.
  - apply ui_step_inv in H
        as [(-> & _)|[(k & item & s' & _ & Hf & _)
                     |(e & w & s' & _ & Hsub & Hs & _)]];
      auto; [discriminate|].
    simpl in Hs. now rewrite (nothing_before_first_press e w Hsub) in Hs.
  - apply ui_step_inv in H
        as [(_ & _ & ->)|[(k & item & s' & _ & Hf & _)
                         |(e & w & s' & _ & Hsub & Hs & _)]];
      auto; [discriminate|].
    simpl in Hs. now rewrite (nothing_before_first_press e w Hsub) in Hs.
Qed.

Lemma splash_over_step ev ui ui' :
  showSplash ui = false /\ splashTimer ui = false ->
  ui_step P games ev ui = Some ui' ->
  showSplash ui' = false /\ splashTimer ui' = false.
Proof.
  intros [Hs Ht] H.
  apply ui_step_inv in H
      as [(_ & _ & ->)|[(k & item & s' & _ & _ & _ & _ & ->)
                       |(e & w & s' & _ & _ & _ & ->)]]; auto.
Qed.

(** X17: the splash screen ends once and does not come back.  Its timer
    is pending exactly while the splash is shown; when it has fired, the
    grid is rendered, with one cell per catalog item, and along every
    later sequence of events [showSplash] stays [false] and the timer
    cannot fire again. *)
Theorem splash_ends_once (ui : AppUI) :
  ui_reachable P games ui ->
  splashTimer ui = showSplash ui
  /\ (showSplash ui = false ->
      forall evs ui',
        ui_exec P games evs ui = Some ui' ->
        showSplash ui' = false
        /\ ui_step P games SplashTimerFires ui' = None
        /\ exists cells,
            render games ui' = MainScreen cells
            /\ length cells = length games).
Proof.
  intros Hreach.
  pose proof (splash_timer_pending ui Hreach) as Ht.
  split; [exact Ht|].
  intros Hsp evs ui' Hex.
  assert (H : showSplash ui' = false /\ splashTimer ui' = false).
  { refine (ui_exec_preserves
              (fun u => showSplash u = false /\ splashTimer u = false)
              _ evs ui ui' _ Hex).
    - intros ev u u'. apply splash_over_step.
    - split; congruence. }
  destruct H as [Hs' Ht'].
  split; [exact Hs'|]. split; [simpl; now rewrite Ht'|].
  unfold render. rewrite Hs'. eexists. split; [reflexivity|].
  apply length_map.
Qed.

Lemma started_game item acts r' : Started P item acts r' -> game r' = item.
Proof. now destruct 1. Qed.

Lemma step_keeps_games (Q : Game -> Prop) e s s' :
  (forall item, e = Press item -> Q item) ->
  (forall w r, runs s !! w = Some r -> Q (game r)) ->
  step P e s = Some s' ->
  forall w r, runs s' !! w = Some r -> Q (game r).
Proof.
  intros Hp Hall Hs w r Hr.
  apply step_inv in Hs
      as [(item & _ & _ & ->)
         |[(item & acts & r' & -> & _ & HS & ->)
          |(w0 & r0 & acts & r' & _ & Hr0 & HL & ->)]]; eauto.
  - simpl in Hr. apply lookup_app_Some in Hr as [Hr|[_ Hr]]; eauto.
    apply list_lookup_singleton_Some in Hr as [_ <-].
    rewrite (started_game _ _ _ HS). now apply Hp.
  - simpl in Hr. destruct (decide (w = w0)) as [->|Hne].
    + rewrite list_lookup_insert_eq in Hr
        by (now apply lookup_lt_Some in Hr0).
      injection Hr as <-. rewrite (local_game P _ _ _ _ HL). eauto.
    + rewrite list_lookup_insert_ne in Hr by congruence. eauto.
Qed.

(** X18: only catalog items are installed.  In every state the component
    can reach, the workflows are in a state [installGame] can reach from
    the start, and every run is a run of an item of [games]: the one
    whose cell was tapped. *)
Theorem runs_are_catalog_items (ui : AppUI) :
  ui_reachable P games ui ->
  reachable P (core ui)
  /\ forall w r, runs (core ui) !! w = Some r -> In (game r) games.
Proof.
  intros Hreach. split; [now apply ui_core_reachable|].
  revert ui Hreach. apply (ui_reachable_ind (fun ui => forall w r, _ -> _));
    [discriminate|].
  intros ev ui ui' _ IH Hs.
  apply ui_step_inv in Hs
      as [(_ & _ & ->)|[(k & item & s' & _ & _ & Hk & Hs & ->)
                       |(e & w0 & s' & _ & Hsub & Hs & ->)]]; auto.
  - apply (step_keeps_games (fun g => In g games) _ _ _) with (3 := Hs); auto.
    intros item' [= <-]. apply list_elem_of_In.
    now apply list_elem_of_lookup_2 with k.
  - apply (step_keeps_games (fun g => In g games) _ _ _) with (3 := Hs); auto.
    intros item' ->. discriminate.
Qed.

(** X19: what the grid shows.  The grid has one cell per catalog item,
    in order, with the item's title.  The button of a cell is disabled
    exactly when [downloadingGame] is the item's identifier, and it is
    labelled "Installing..." exactly then, "Install" otherwise; a
    disabled cell belongs to an item with a run that is downloading or
    handing off.  If the identifiers of the catalog are distinct, at most
    one cell is disabled. *)
Theorem grid_shows_the_busy_item (ui : AppUI) :
  ui_reachable P games ui -> showSplash ui = false ->
  exists cells,
    render games ui = MainScreen cells
    /\ length cells = length games
    /\ (forall k item,
          games !! k = Some item ->
          exists c,
            cells !! k = Some c
            /\ cell_item c = item /\ cell_title c = title item
            /\ (cell_disabled c = true
                <-> downloadingGame (core ui) = Some (id item))
            /\ (cell_label c = installing_label <-> cell_disabled c = true)
            /\ (cell_label c = install_label <-> cell_disabled c = false)
            /\ (cell_disabled c = true ->
                exists w r,
                  runs (core ui) !! w = Some r /\ id (game r) = id item
                  /\ holds_busy (stage r) = true))
    /\ (NoDup (map id games) ->
        forall k1 k2 c1 c2,
          cells !! k1 = Some c1 -> cells !! k2 = Some c2 ->
          cell_disabled c1 = true -> cell_disabled c2 = true -> k1 = k2).
Proof.
  intros Hreach Hsp. unfold render. rewrite Hsp.
  eexists. split; [reflexivity|]. split; [apply length_map|]. split.
  - intros k item Hk. exists (renderGame (core ui) item).
    split; [now rewrite list_lookup_fmap, Hk|].
    split; [reflexivity|]. split; [reflexivity|]. simpl.
    split; [apply disabled_iff|].
    split; [destruct (disabled (core ui) item); split; try discriminate;
            reflexivity|].
    split; [destruct (disabled (core ui) item); split; try discriminate;
            reflexivity|].
    intros D. apply (busy_invariant P (core ui)).
    + now apply ui_core_reachable.
    + now apply disabled_iff.
  - intros Hnd k1 k2 c1 c2 H1 H2 D1 D2.
    rewrite list_lookup_fmap in H1, H2.
    destruct (games !! k1) as [i1|] eqn:E1; [|discriminate].
    destruct (games !! k2) as [i2|] eqn:E2; [|discriminate].
    simpl in H1, H2. injection H1 as <-. injection H2 as <-.
    simpl in D1, D2. apply disabled_iff in D1, D2.
    assert (Hid : id i1 = id i2) by congruence.
    apply (NoDup_lookup (map id games) k1 k2 (id i1) Hnd).
    + now rewrite list_lookup_fmap, E1.
    + rewrite list_lookup_fmap, E2. simpl. now rewrite Hid.
Qed.

(** X20: what a tap does once the grid is shown.  There is no button
    beyond the last catalog item.  A tap on a disabled button changes
    nothing.  A tap on an enabled button starts one new run, of the item
    of that cell, and leaves the earlier runs as they are. *)
Theorem tap_starts_the_cell_item (ui : AppUI) (k : nat) :
  showSplash ui = false ->
  (games !! k = None -> ui_step P games (Tap k) ui = None)
  /\ forall item,
      games !! k = Some item ->
      (disabled (core ui) item = true ->
       ui_step P games (Tap k) ui = Some ui)
      /\ (disabled (core ui) item = false ->
          exists ui' r',
            ui_step P games (Tap k) ui = Some ui'
            /\ runs (core ui') = runs (core ui) ++ [r']
            /\ game r' = item
            /\ (stage r' = AtPermission \/ stage r' = AtDownload)
            /\ showSplash ui' = false).
Proof.
  intros Hsp. simpl. unfold render. rewrite Hsp, list_lookup_fmap. split.
  - now intros ->.
  - intros item ->. simpl. split.
    + now intros ->.
    + intros D. rewrite D.
      destruct (started_sound P item) as (acts & r' & E & HS).
      rewrite E, resume_after. simpl. eexists _, r'.
      split; [reflexivity|]. simpl.
      split; [now rewrite insert_app_r_alt, Nat.sub_diag by reflexivity|].
      split; [now apply started_game with acts|].
      split; [destruct HS; auto|exact Hsp].
Qed.

Lemma key_inj (a b : Game) : keyExtractor a = keyExtractor b -> id a = id b.
Proof.
  unfold keyExtractor. intros H.
  apply DecimalZ.to_int_inj.
  assert (N : forall z, Z.to_int z <> Decimal.Pos Decimal.Nil
                        /\ Z.to_int z <> Decimal.Neg Decimal.Nil).
  { intros [|p|p]; simpl; split; try discriminate;
      intros [= E]; now apply DecimalPos.Unsigned.to_uint_nonnil in E. }
  pose proof (DecimalString.NilZero.isi (Z.to_int (id a))
                (proj1 (N _)) (proj2 (N _))) as Ha.
  pose proof (DecimalString.NilZero.isi (Z.to_int (id b))
                (proj1 (N _)) (proj2 (N _))) as Hb.
  rewrite H in Ha. congruence.
Qed.

(** X21: the keys of the list are as distinct as the identifiers.  For a
    catalog whose identifiers are safe integers, two items get the same
    key from [keyExtractor] only if they have the same identifier; so if
    the identifiers are distinct, the keys are. *)
Theorem keys_are_distinct :
  Forall (fun g => safe_integer (id g)) games ->
  (forall a b, In a games -> In b games ->
     keyExtractor a = keyExtractor b -> id a = id b)
  /\ (NoDup (map id games) -> NoDup (map keyExtractor games)).
Proof.
  intros _. split; [intros a b _ _; apply key_inj|].
  induction games as [|g gs IH]; simpl; intros Hnd; [constructor|].
  inversion Hnd as [|x l Hnin Hnd']; subst.
  constructor; [|now apply IH].
  intros Hin. apply Hnin. apply list_elem_of_In in Hin.
  apply in_map_iff in Hin as (g' & Hk & Hg').
  apply list_elem_of_In, in_map_iff. exists g'. split; [|assumption].
  now apply key_inj.
Qed.

End AppFacts.

(** * The further properties at sample states *)

Section MoreWitnesses.

Import Sample SampleStates SampleMore SampleUI.

Lemma run_calls_in_order_witness :
  let s := state_after android30 answered_yes in
  reachable android30 s
  /\ exists r, runs s !! 0%nat = Some r
               /\ history_shape android30 (own 0 (trace s)) r.
Proof.
  intros s.
  assert (R : reachable android30 s)
    by (apply reachable_state_after; discriminate).
  split; [exact R|]. eexists. split; [reflexivity|].
  exact (run_calls_in_order android30 s 0%nat _ R eq_refl).
Defined.

Lemma run_steps_at_most_once_witness :
  let s := state_after android30 answered_yes in
  reachable android30 s
  /\ exists r, runs s !! 0%nat = Some r
               /\ (calls is_downloadFile 0 (trace s) <= 1)%nat
               /\ calls is_prompt 0 (trace s) = O.
Proof.
  intros s.
  assert (R : reachable android30 s)
    by (apply reachable_state_after; discriminate).
  split; [exact R|]. eexists. split; [reflexivity|].
  destruct (run_steps_at_most_once android30 s 0%nat _ R eq_refl)
    as (Hp & Hd & _).
  split; [exact Hd|exact Hp].
Defined.

Lemma run_calls_name_its_item_witness :
  let s := state_after android30 answered_yes in
  reachable android30 s
  /\ exists r, runs s !! 0%nat = Some r
               /\ Forall (run_call android30 (game r)) (own 0 (trace s)).
Proof.
  intros s.
  assert (R : reachable android30 s)
    by (apply reachable_state_after; discriminate).
  split; [exact R|]. eexists. split; [reflexivity|].
  exact (proj1 (run_calls_name_its_item android30 s 0%nat _ R eq_refl)).
Defined.

Lemma installGame_catches_witness :
  reachable android30 downloading
  /\ (exists r, runs downloading !! 0%nat = Some r
                /\ awaited_rejection
                     (DownloadSettled 0 (Rejected "timeout"%string))
                   = Some (0%nat, stage r, "timeout"%string))
  /\ exists s',
      step android30 (DownloadSettled 0 (Rejected "timeout"%string))
           downloading = Some s'
      /\ downloadingGame s' = None
      /\ workflow_state s' 0 = Failed (InstallError "timeout"%string).
Proof.
  assert (R : reachable android30 downloading)
    by (apply reachable_state_after; discriminate).
  split; [exact R|]. split; [eexists; split; reflexivity|].
  destruct (installGame_catches android30
              (DownloadSettled 0 (Rejected "timeout"%string))
              downloading 0%nat _ "timeout"%string R eq_refl eq_refl)
    as (s' & Hs & _ & Hd & _ & Hall).
  exists s'. split; [exact Hs|]. split; [exact Hd|].
  exact (proj1 (Hall [] s' eq_refl)).
Defined.

Lemma failed_run_is_final_witness :
  reachable android30 download_failed
  /\ (exists r, runs download_failed !! 0%nat = Some r)
  /\ is_failed (workflow_state download_failed 0) = true
  /\ step android30 (DownloadSettled 0 ok200) download_failed = None
  /\ step android30 (IntervalFires 0) download_failed = None.
Proof.
  assert (R : reachable android30 download_failed)
    by (apply reachable_state_after; discriminate).
  split; [exact R|]. split; [eexists; reflexivity|].
  split; [reflexivity|].
  destruct (failed_run_is_final android30 download_failed 0%nat _ R
              eq_refl eq_refl) as (Hnone & _).
  split; apply Hnone; reflexivity.
Defined.

Lemma run_never_goes_back_witness :
  exec android30 download_to_polling downloading
  = Some (state_after android30 to_polling)
  /\ (exists r, runs downloading !! 0%nat = Some r)
  /\ exists r',
      runs (state_after android30 to_polling) !! 0%nat = Some r'
      /\ game r' = space_jump.
Proof.
  split; [reflexivity|]. split; [eexists; reflexivity|].
  destruct (run_never_goes_back android30 download_to_polling downloading
              (state_after android30 to_polling) 0%nat _ eq_refl eq_refl)
    as (r' & Hr' & Hg & _).
  exists r'. split; [exact Hr'|exact Hg].
Defined.


Lemma polling_calls_counted_witness :
  exec android30 answered_yes init = Some (state_after android30 answered_yes)
  /\ calls is_alert_installed 0 (trace (state_after android30 answered_yes))
     = 1%nat
  /\ calls is_isAppInstalled 0 (trace (state_after android30 answered_yes))
     = 1%nat.
Proof.
  split; [reflexivity|].
  destruct (polling_calls_counted android30 answered_yes
              (state_after android30 answered_yes) 0%nat eq_refl)
    as (Hq & Ha & _).
  split; [exact Ha|exact Hq].
Defined.

Lemma positive_answer_ends_polling_witness :
  let s := state_after android30 checking_once in
  reachable android30 s
  /\ (exists r, runs s !! 0%nat = Some r /\ checking r = 1%nat)
  /\ exists s',
      step android30 (QuerySettled 0 (Fulfilled true)) s = Some s'
      /\ step android30 (IntervalFires 0) s' = None.
Proof.
  intros s.
  assert (R : reachable android30 s)
    by (apply reachable_state_after; discriminate).
  split; [exact R|]. split; [eexists; split; reflexivity|].
  destruct (positive_answer_ends_polling android30 s 0%nat _ 0%nat R
              eq_refl eq_refl) as (s' & Hs & Hall).
  exists s'. split; [exact Hs|].
  exact (proj1 (Hall [] s' eq_refl)).
Defined.

Lemma launch_return_is_launched_witness :
  let s := state_after android30 answered_yes in
  reachable android30 s
  /\ (exists r, runs s !! 0%nat = Some r /\ launching r = 1%nat)
  /\ exists s',
      step android30 (LaunchSettled 0 (Fulfilled tt)) s = Some s'
      /\ workflow_state s' 0 = Launched.
Proof.
  intros s.
  assert (R : reachable android30 s)
    by (apply reachable_state_after; discriminate).
  split; [exact R|]. split; [eexists; split; reflexivity|].
  destruct (launch_return_is_launched android30 s 0%nat _ 0%nat tt R
              eq_refl eq_refl) as (s' & Hs & _ & _ & Hall).
  exists s'. split; [exact Hs|].
  exact (Hall [] s' eq_refl).
Defined.

Lemma press_outcome_by_platform_witness :
  disabled init space_jump = false
  /\ (exists s',
         step android30 (Press space_jump) init = Some s'
         /\ downloadingGame s' = Some 1
         /\ step android30 (Press space_jump) s' = Some s')
  /\ exists s' s'',
      step android28 (Press space_jump) init = Some s'
      /\ downloadingGame s' = None
      /\ step android28 (Press space_jump) s' = Some s''
      /\ workflow_state s'' 1 = AwaitingPermission.
Proof.
  assert (D : disabled init space_jump = false) by reflexivity.
  split; [exact D|]. split.
  - destruct (press_outcome_by_platform android30 init space_jump D)
      as (H30 & _).
    destruct H30 as (s' & Hs & _ & Hd & _ & Hagain);
      [right; simpl; lia|].
    exists s'. auto.
  - destruct (press_outcome_by_platform android28 init space_jump D)
      as (_ & H28).
    destruct H28 as (s' & s'' & Hs & _ & Hd & _ & Hs2 & _ & _ & Hw);
      [split; [reflexivity|simpl; lia]|].
    exists s', s''. auto.
Defined.

Lemma no_rejection_escapes_witness :
  exec android30 answered_no init = Some (state_after android30 answered_no)
  /\ unhandled (state_after android30 answered_no) = [].
Proof.
  split; [reflexivity|].
  exact (proj1 (no_rejection_escapes android30 answered_no init
                  (state_after android30 answered_no) eq_refl)).
Defined.

Lemma clean_titles_keep_their_name_witness :
  forallb Dest.is_alnum (js "Puzzle") = true
  /\ Dest.file_name (js "Puzzle") = js "Puzzle" ++ js ".apk".
Proof.
  split; [reflexivity|].
  exact (proj1 (proj2 (clean_titles_keep_their_name (js "Puzzle"))) eq_refl).
Defined.

Lemma titles_collide_iff_witness :
  List.Forall2 same_slot (js "A B") (js "A_B")
  /\ Dest.dest (js "/d") (js "A B") = Dest.dest (js "/d") (js "A_B").
Proof.
  assert (F : List.Forall2 same_slot (js "A B") (js "A_B")).
  { simpl.
    repeat (apply List.Forall2_cons;
            [first [left; reflexivity|right; split; reflexivity]|]).
    apply List.Forall2_nil. }
  split; [exact F|].
  exact (proj2 (titles_collide_iff (js "/d") (js "A B") (js "A_B")) F).
Defined.

Lemma ui_reachable_after P games evs :
  ui_exec P games evs mounted <> None ->
  ui_reachable P games (ui_after P games evs).
Proof.
  unfold ui_after. intros H. exists evs.
  destruct (ui_exec P games evs mounted); [reflexivity|contradiction].
Qed.

Lemma splash_blocks_install_witness :
  ui_reachable android30 catalog mounted
  /\ showSplash mounted = true
  /\ render catalog mounted = SplashScreen
  /\ ui_step android30 catalog (Tap 0) mounted = None.
Proof.
  assert (R : ui_reachable android30 catalog mounted) by (now exists []).
  split; [exact R|]. split; [reflexivity|].
  destruct (splash_blocks_install android30 catalog mounted R eq_refl)
    as (_ & Hr & _ & _ & Honly).
  split; [exact Hr|].
  destruct (ui_step android30 catalog (Tap 0) mounted) as [ui'|] eqn:E;
    [|reflexivity].
  destruct (Honly (Tap 0) ui' E) as [H _]. discriminate H.
Defined.

Lemma splash_ends_once_witness :
  let ui := ui_after android30 catalog [SplashTimerFires] in
  ui_reachable android30 catalog ui
  /\ showSplash ui = false
  /\ ui_step android30 catalog SplashTimerFires ui = None.
Proof.
  intros ui.
  assert (R : ui_reachable android30 catalog ui)
    by (apply ui_reachable_after; discriminate).
  split; [exact R|]. split; [reflexivity|].
  destruct (splash_ends_once android30 catalog ui R) as (_ & H).
  exact (proj1 (proj2 (H eq_refl [] ui eq_refl))).
Defined.

Lemma runs_are_catalog_items_witness :
  let ui := ui_after android30 catalog tapped_first in
  ui_reachable android30 catalog ui
  /\ exists r, runs (core ui) !! 0%nat = Some r /\ In (game r) catalog.
Proof.
  intros ui.
  assert (R : ui_reachable android30 catalog ui)
    by (apply ui_reachable_after; discriminate).
  split; [exact R|]. eexists. split; [reflexivity|].
  exact (proj2 (runs_are_catalog_items android30 catalog ui R) 0%nat _
           eq_refl).
Defined.

Lemma grid_shows_the_busy_item_witness :
  let ui := ui_after android30 catalog tapped_first in
  ui_reachable android30 catalog ui
  /\ showSplash ui = false
  /\ exists cells,
      render catalog ui = MainScreen cells /\ length cells = 2%nat.
Proof.
  intros ui.
  assert (R : ui_reachable android30 catalog ui)
    by (apply ui_reachable_after; discriminate).
  split; [exact R|]. split; [reflexivity|].
  destruct (grid_shows_the_busy_item android30 catalog ui R eq_refl)
    as (cells & Hr & Hl & _).
  exists cells. split; [exact Hr|exact Hl].
Defined.

Lemma tap_starts_the_cell_item_witness :
  let ui := ui_after android30 catalog [SplashTimerFires] in
  showSplash ui = false
  /\ catalog !! 1%nat = Some puzzle
  /\ disabled (core ui) puzzle = false
  /\ exists ui' r',
      ui_step android30 catalog (Tap 1) ui = Some ui'
      /\ runs (core ui') = runs (core ui) ++ [r'] /\ game r' = puzzle.
Proof.
  intros ui. split; [reflexivity|]. split; [reflexivity|].
  split; [reflexivity|].
  destruct (tap_starts_the_cell_item android30 catalog ui 1%nat eq_refl)
    as (_ & H).
  destruct (H puzzle eq_refl) as (_ & Hstart).
  destruct (Hstart eq_refl) as (ui' & r' & Hs & Hr & Hg & _).
  exists ui', r'. auto.
Defined.

Lemma keys_are_distinct_witness :
  Forall (fun g => safe_integer (id g)) catalog
  /\ NoDup (map id catalog)
  /\ NoDup (map keyExtractor catalog).
Proof.
  assert (F : Forall (fun g => safe_integer (id g)) catalog).
  { repeat constructor; unfold safe_integer; simpl; lia. }
  assert (N : NoDup (map id catalog)).
  { simpl. repeat constructor; rewrite ?list_elem_of_In; simpl;
      intuition discriminate. }
  split; [exact F|]. split; [exact N|].
  exact (proj2 (keys_are_distinct catalog F) N).
Defined.

Lemma polling_goes_on_witness :
  let s := state_after android30 to_polling in
  reachable android30 s
  /\ workflow_state s 0 = PollingForInstall
  /\ Forall (keeps_polling 0) patient
  /\ exec android30 patient s
     = Some (state_after android30 (to_polling ++ patient))
  /\ workflow_state (state_after android30 (to_polling ++ patient)) 0
     = PollingForInstall.
Proof.
  intros s.
  assert (R : reachable android30 s)
    by (apply reachable_state_after; discriminate).
  assert (F : Forall (keeps_polling 0) patient)
    by (repeat (constructor; [split; discriminate|]); constructor).
  split; [exact R|]. split; [reflexivity|]. split; [exact F|].
  split; [reflexivity|].
  exact (proj1 (proj2 (polling_goes_on android30 s 0%nat R eq_refl)
                  patient _ F eq_refl)).
Defined.

Lemma late_answer_installs_witness :
  let s := state_after android30 timed_out_checking in
  reachable android30 s
  /\ (exists r, runs s !! 0%nat = Some r /\ checking r = 1%nat)
  /\ workflow_state s 0 = TimedOut
  /\ exists s',
      step android30 (QuerySettled 0 (Fulfilled true)) s = Some s'
      /\ workflow_state s' 0 = Installed.
Proof.
  intros s.
  assert (R : reachable android30 s)
    by (apply reachable_state_after; discriminate).
  split; [exact R|]. split; [eexists; split; reflexivity|].
  split; [reflexivity|].
  destruct (late_answer_installs android30 s 0%nat _ 0%nat R eq_refl
              eq_refl eq_refl) as (s' & Hs & Hw & _).
  exists s'. split; [exact Hs|exact Hw].
Defined.

End MoreWitnesses.
